(** * Certificate lifecycle orchestration for the nginx / certbot entrypoint

    A shallow embedding of [entrypoint.py]: the Python values, the file
    system and process environment it touches, its three classes
    ([Config], [Certbot], [Nginx]), its module-level functions, and the
    three threads of control ([main], [run_renewer], [obtain_cert]) as an
    interleaving transition system over one shared state.

    Conventions.
    - Python exceptions are the [Exc] outcome of the monad [M]; effects made
      before the exception was raised are kept.
    - A [threading.Lock] is a boolean ([true] = held).  [acquire] on a held
      lock is the [Block] outcome; [release] may be called by any thread and
      raises when the lock is not held.
    - Every source statement of a thread body is one atomic step, named by
      the source line it starts on.
    - External programs (nginx, certbot) are an oracle [world]: the n-th
      external command either cannot be launched or exits with a status and
      an output.
    - A path is the string the program spells; the file system maps paths to
      regular files or directories.  Opening a file for writing is assumed to
      find its parent directory (the configuration directory ships with the
      image).
    - The process has an exit status once the main thread has ended and
      every thread it started has ended too (none is a daemon).  The hook
      given to [atexit.register] is recorded; its run at interpreter exit,
      which only kills the processes still alive, is not part of the
      model. *)

From stdpp Require Import gmap strings list fin_maps pretty.
From Stdlib Require Import ZArith Ascii.

#[local] Open Scope string_scope.
#[local] Open Scope list_scope.
#[local] Open Scope Z_scope.
#[local] Open Scope stdpp_scope.

(** ** Module-level constants *)

Definition TLS_CONFIG : string := "
server {{
    # Based on https://mozilla.github.io/server-side-tls/ssl-config-generator/
    # for Nginx 1.11.3

    listen 443 ssl http2;
    listen [::]:443 ssl http2;
    server_name {0};

    ssl_session_timeout 1d;
    ssl_session_cache shared:SSL:50m;
    ssl_session_tickets off;
    ssl_certificate {1};
    ssl_certificate_key {2};
    ssl_trusted_certificate {3};

    # intermediate configuration. tweak to your needs.
    ssl_protocols TLSv1 TLSv1.1 TLSv1.2;
    ssl_ciphers 'ECDHE-ECDSA-CHACHA20-POLY1305:ECDHE-RSA-CHACHA20-POLY1305:ECDHE-ECDSA-AES128-GCM-SHA256:ECDHE-RSA-AES128-GCM-SHA256:ECDHE-ECDSA-AES256-GCM-SHA384:ECDHE-RSA-AES256-GCM-SHA384:DHE-RSA-AES128-GCM-SHA256:DHE-RSA-AES256-GCM-SHA384:ECDHE-ECDSA-AES128-SHA256:ECDHE-RSA-AES128-SHA256:ECDHE-ECDSA-AES128-SHA:ECDHE-RSA-AES256-SHA384:ECDHE-RSA-AES128-SHA:ECDHE-ECDSA-AES256-SHA384:ECDHE-ECDSA-AES256-SHA:ECDHE-RSA-AES256-SHA:DHE-RSA-AES128-SHA256:DHE-RSA-AES128-SHA:DHE-RSA-AES256-SHA256:DHE-RSA-AES256-SHA:ECDHE-ECDSA-DES-CBC3-SHA:ECDHE-RSA-DES-CBC3-SHA:EDH-RSA-DES-CBC3-SHA:AES128-GCM-SHA256:AES256-GCM-SHA384:AES128-SHA256:AES256-SHA256:AES128-SHA:AES256-SHA:DES-CBC3-SHA:!DSS';
    ssl_prefer_server_ciphers on;

    # fetch OCSP records from URL in ssl_certificate and cache them
    ssl_stapling on;
    ssl_stapling_verify on;

    # Diffie-Hellman parameter for DHE ciphersuites, recommended 2048 bits
    ssl_dhparam /etc/ssl/certs/dhparam.pem;

    # HSTS (ngx_http_headers_module is required) (15768000 seconds = 6 months)
    add_header Strict-Transport-Security max-age=15768000;

    # A resolver must be set for resolving OCSP responder hostname
    resolver 8.8.4.4 8.8.8.8;

    # If there is a conf file, these directives will
    # be added into the server block. If there is
    # no include directive here then you need to
    # create a conf file mounted in a volume in
    # /etc/nginx/conf.d/custom/
    #
    # Note: adding duplicates to the directives defined
    # above will cause errors.
    {4}
}}
".

Definition PROXY_CONFIG : string := "
server {
    listen 443 ssl;
    server_name _;
    ssl_certificate /etc/nginx/ssl/nginx.crt;
    ssl_certificate_key /etc/nginx/ssl/nginx.key;
    location / {
        proxy_pass http://localhost;
    }
}
".

Definition LE_BASE_DIR : string := "/etc/letsencrypt/live".

Definition FULL_CHAIN : string := "fullchain.pem".

Definition PRIVATE_KEY : string := "privkey.pem".

Definition CHAIN : string := "chain.pem".

Definition NGINX_CMD : list string := ["nginx"; "-g"; "daemon off;"].

(** ** Python values and library functions the program relies on *)

(** The values an optional setting can hold: [os.getenv(key, False)] is
    either the default [False] or the string found in the environment. *)
Inductive pyval : Type :=
| PyNone
| PyBool (b : bool)
| PyStr (s : string).

(** Truth value testing, as done by [if x] and [not x]. *)
Definition truthy (v : pyval) : bool :=
  match v with
  | PyNone => false
  | PyBool b => b
  | PyStr s => negb (String.eqb s "")
  end.

Definition truthy_opt (o : option string) : bool :=
  match o with
  | None => false
  | Some s => negb (String.eqb s "")
  end.

(** [str(x)] for a value that is [None] or a string. *)
Definition py_str (o : option string) : string :=
  match o with
  | None => "None"
  | Some s => s
  end.

(** [sep.join(words)] *)
Fixpoint str_join (sep : string) (words : list string) : string :=
  match words with
  | [] => ""
  | [w] => w
  | w :: rest => w +:+ sep +:+ str_join sep rest
  end.

Definition startswith_sep (b : string) : bool :=
  match b with
  | String c _ => Ascii.eqb c "/"
  | EmptyString => false
  end.

Fixpoint endswith_sep (p : string) : bool :=
  match p with
  | EmptyString => false
  | String c EmptyString => Ascii.eqb c "/"
  | String _ r => endswith_sep r
  end.

(** One round of the loop of [posixpath.join]: an absolute component
    discards what came before; otherwise a separator is inserted unless the
    path so far is empty or already ends with one. *)
Definition join_component (path b : string) : string :=
  if startswith_sep b then b
  else if String.eqb path "" || endswith_sep path then path +:+ b
  else path +:+ "/" +:+ b.

Definition os_path_join (a : string) (p : list string) : string :=
  fold_left join_component p a.

Definition digit_index (c : ascii) : option nat :=
  let n := nat_of_ascii c in
  if (48 <=? n)%nat && (n <=? 57)%nat then Some (n - 48)%nat else None.

(** [template.format] applied to its arguments, for the replacement fields the program uses:
    [{}] (automatic numbering), [{N}] for one digit [N], and the escapes
    [{{] and [}}].  [None] stands for the [ValueError] / [IndexError] of a
    malformed template or a missing argument. *)
Fixpoint format_from (auto : nat) (t : string) (args : list string)
  : option string :=
  match t with
  | EmptyString => Some EmptyString
  | String c r =>
    if Ascii.eqb c "{" then
      match r with
      | EmptyString => None
      | String c1 r1 =>
        if Ascii.eqb c1 "{" then String c <$> format_from auto r1 args
        else if Ascii.eqb c1 "}" then
          match args !! auto with
          | Some a => String.app a <$> format_from (S auto) r1 args
          | None => None
          end
        else
          match r1 with
          | String c2 r2 =>
            if Ascii.eqb c2 "}" then
              match digit_index c1 with
              | Some i =>
                match args !! i with
                | Some a => String.app a <$> format_from auto r2 args
                | None => None
                end
              | None => None
              end
            else None
          | EmptyString => None
          end
      end
    else if Ascii.eqb c "}" then
      match r with
      | String c1 r1 =>
        if Ascii.eqb c1 "}" then String c <$> format_from auto r1 args
        else None
      | EmptyString => None
      end
    else String c <$> format_from auto r args
  end.

Definition str_format (t : string) (args : list string) : option string :=
  format_from 0 t args.

(** ** Exceptions, external commands, the file system *)

Inductive exn : Type :=
| SystemExit (code : Z)
| CalledProcessError (cmd : list string) (code : Z)
| OSError
| IOError
| ThreadError
| AttributeError
| TypeError
| ValueError.

(** What the world answers when a command is run. *)
Inductive cmd_result : Type :=
| Exited (code : Z) (output : string)
| NotLaunched.

Inductive node : Type :=
| File (content : string)
| Dir.

Inductive proc_state : Type :=
| Alive
| Gone.

Inductive lock : Type :=
| start_lock
| done_lock.

Inductive actor : Type :=
| MainThread
| RenewerThread
| ObtainThread
| NginxProcess.

Inductive log_level : Type :=
| INFO
| ERROR.

(** What an observer of the process can see, plus the lock operations. *)
Inductive event : Type :=
| EvLog (level : log_level) (msg : string)
| EvPopen (cmd : list string)
| EvCheckCall (cmd : list string)
| EvCheckOutput (cmd : list string)
| EvSleep (seconds : Z)
| EvThreadStart (t : actor)
| EvSighup
| EvAtexit
| EvAcquire (t : actor) (l : lock)
| EvRelease (t : actor) (l : lock).

#[global] Instance lock_eq_dec : EqDecision lock.
Proof. solve_decision. Defined.

#[global] Instance actor_eq_dec : EqDecision actor.
Proof. solve_decision. Defined.

Definition is_command (e : event) : bool :=
  match e with
  | EvPopen _ | EvCheckCall _ | EvCheckOutput _ => true
  | _ => false
  end.

(** Number of external commands run so far: the index of the next one. *)
Definition commands_run (tr : list event) : nat :=
  List.length (List.filter is_command tr).

(** ** The configuration object and the issuer object *)

Module Config.

Record t : Type := mk {
  debug : pyval;
  domain : option string;
  email : option string;
  server : option string;
  staging : pyval
}.

Definition defaults : t :=
  {| debug := PyBool false;
     domain := None;
     email := None;
     server := None;
     staging := PyBool false |}.

(** [Config()] copies the defaults onto the new object. *)
Definition init : t := defaults.

(** [set(key, value)], one function per attribute the program sets. *)
Definition set_email (v : option string) (c : t) : t :=
  mk (debug c) (domain c) v (server c) (staging c).
Definition set_domain (v : option string) (c : t) : t :=
  mk (debug c) v (email c) (server c) (staging c).
Definition set_server (v : option string) (c : t) : t :=
  mk (debug c) (domain c) (email c) v (staging c).
Definition set_staging (v : pyval) (c : t) : t :=
  mk (debug c) (domain c) (email c) (server c) v.
Definition set_debug (v : pyval) (c : t) : t :=
  mk v (domain c) (email c) (server c) (staging c).

End Config.

Module Certbot.

(** [args] is the dictionary from flag to its value ([None] for a flag
    that stands alone); [cmd] is the argument vector under construction. *)
Record t : Type := mk {
  args : gmap string (option string);
  config : Config.t;
  domain : option string;
  email : option string;
  cmd : list string
}.

Definition add_arg (key : string) (value : option string) (self : t) : t :=
  mk (<[key := value]> (args self)) (config self) (domain self)
     (email self) (cmd self).

Definition init (config : Config.t) : t :=
  let self :=
    mk ∅ config (Config.domain config) (Config.email config)
       ["certbot"; "certonly"] in
  let self := add_arg "--domain" (domain self) self in
  let self := add_arg "--email" (email self) self in
  let self := add_arg "--standalone" None self in
  let self := add_arg "--non-interactive" None self in
  let self := add_arg "--agree-tos" None self in
  let self := add_arg "--must-staple" None self in
  let self :=
    if truthy (Config.staging config)
    then add_arg "--staging" None self else self in
  let self :=
    if truthy (Config.debug config)
    then add_arg "-vvv" (Some "--text") self else self in
  let self :=
    if truthy_opt (Config.server config)
    then add_arg "--server" (Config.server config) self else self in
  add_arg "--preferred-challenges" (Some "http-01") self.

(** One round of the loop of [run]: the flag, then its value if any. *)
Definition append_item (cmd : list string) (kv : string * option string)
  : list string :=
  match kv.2 with
  | Some v => cmd ++ [kv.1; v]
  | None => cmd ++ [kv.1]
  end.

(** The argument vector after the loop of [run]; the dictionary is
    traversed in its own (unspecified but fixed) order. *)
Definition build_cmd (self : t) : list string :=
  fold_left append_item (map_to_list (args self)) (cmd self).

Definition set_cmd (c : list string) (self : t) : t :=
  mk (args self) (config self) (domain self) (email self) c.

End Certbot.

(** ** Threads of control and the shared state *)

(** The lines of [Nginx.start]. *)
Inductive start_line : Type :=
| L164
| L166
| L167.

(** Control points of [main], by source line, with the live locals. *)
Inductive main_pc : Type :=
| M328
| M329
| M331
| M332
| M335 (config : Config.t)
| M342 (config : Config.t)
| M343 (config : Config.t)
| M344 (config : Config.t)
| M345 (config : Config.t) (l : start_line)
| M347 (config : Config.t)
| M352 (config : Config.t)
| M353 (config : Config.t)
| M354 (l : start_line).

(** Control points of [run_renewer]. *)
Inductive renewer_pc : Type :=
| R310 (config : Config.t)
| R311 (config : Config.t)
| R314 (config : Config.t)
| R324 (config : Config.t).

(** Control points of [obtain_cert]. *)
Inductive obtain_pc : Type :=
| O293 (config : Config.t)
| O295 (certbot : Certbot.t)
| O296 (certbot : Certbot.t)
| O297 (certbot : Certbot.t)
| O298 (certbot : Certbot.t)
| O299
| O300
| O301.

(** A thread has not been started, is at a control point, or has ended,
    normally or with the exception that escaped its body. *)
Inductive thread (pc : Type) : Type :=
| NotStarted
| At (p : pc)
| Ended (e : option exn).

Arguments NotStarted {pc}.
Arguments At {pc} p.
Arguments Ended {pc} e.

Record state : Type := mkState {
  environ : gmap string string;
  world : nat → list string → cmd_result;
  fs : gmap string node;
  trace : list event;
  start_held : bool;
  done_held : bool;
  handle : option proc_state;
  main_t : thread main_pc;
  renewer_t : thread renewer_pc;
  obtain_t : thread obtain_pc
}.

Definition set_fs (v : gmap string node) (s : state) : state :=
  {| environ := environ s;
     world := world s;
     fs := v;
     trace := trace s;
     start_held := start_held s;
     done_held := done_held s;
     handle := handle s;
     main_t := main_t s;
     renewer_t := renewer_t s;
     obtain_t := obtain_t s |}.

Definition set_trace (v : list event) (s : state) : state :=
  {| environ := environ s;
     world := world s;
     fs := fs s;
     trace := v;
     start_held := start_held s;
     done_held := done_held s;
     handle := handle s;
     main_t := main_t s;
     renewer_t := renewer_t s;
     obtain_t := obtain_t s |}.

Definition set_start_held (v : bool) (s : state) : state :=
  {| environ := environ s;
     world := world s;
     fs := fs s;
     trace := trace s;
     start_held := v;
     done_held := done_held s;
     handle := handle s;
     main_t := main_t s;
     renewer_t := renewer_t s;
     obtain_t := obtain_t s |}.

Definition set_done_held (v : bool) (s : state) : state :=
  {| environ := environ s;
     world := world s;
     fs := fs s;
     trace := trace s;
     start_held := start_held s;
     done_held := v;
     handle := handle s;
     main_t := main_t s;
     renewer_t := renewer_t s;
     obtain_t := obtain_t s |}.

Definition set_handle (v : option proc_state) (s : state) : state :=
  {| environ := environ s;
     world := world s;
     fs := fs s;
     trace := trace s;
     start_held := start_held s;
     done_held := done_held s;
     handle := v;
     main_t := main_t s;
     renewer_t := renewer_t s;
     obtain_t := obtain_t s |}.

Definition set_main_t (v : thread main_pc) (s : state) : state :=
  {| environ := environ s;
     world := world s;
     fs := fs s;
     trace := trace s;
     start_held := start_held s;
     done_held := done_held s;
     handle := handle s;
     main_t := v;
     renewer_t := renewer_t s;
     obtain_t := obtain_t s |}.

Definition set_renewer_t (v : thread renewer_pc) (s : state) : state :=
  {| environ := environ s;
     world := world s;
     fs := fs s;
     trace := trace s;
     start_held := start_held s;
     done_held := done_held s;
     handle := handle s;
     main_t := main_t s;
     renewer_t := v;
     obtain_t := obtain_t s |}.

Definition set_obtain_t (v : thread obtain_pc) (s : state) : state :=
  {| environ := environ s;
     world := world s;
     fs := fs s;
     trace := trace s;
     start_held := start_held s;
     done_held := done_held s;
     handle := handle s;
     main_t := main_t s;
     renewer_t := renewer_t s;
     obtain_t := v |}.

(** Events are recorded newest first. *)
Definition emit (e : event) (s : state) : state :=
  set_trace (e :: trace s) s.

Definition held (l : lock) (s : state) : bool :=
  match l with
  | start_lock => start_held s
  | done_lock => done_held s
  end.

Definition set_held (l : lock) (b : bool) (s : state) : state :=
  match l with
  | start_lock => set_start_held b s
  | done_lock => set_done_held b s
  end.

(** ** The monad of statements: state, exceptions, blocking *)

Inductive res (A : Type) : Type :=
| Ret (a : A) (s : state)
| Exc (e : exn) (s : state)
| Block.

Arguments Ret {A} a s.
Arguments Exc {A} e s.
Arguments Block {A}.

Definition M (A : Type) : Type := state → res A.

#[global] Instance M_ret : MRet M := λ A a s, Ret a s.

#[global] Instance M_bind : MBind M := λ A B f m s,
  match m s with
  | Ret a s' => f a s'
  | Exc e s' => Exc e s'
  | Block => Block
  end.

Definition raise {A : Type} (e : exn) : M A := λ s, Exc e s.

Definition block {A : Type} : M A := λ _, Block.

Definition gets {A : Type} (f : state → A) : M A := λ s, Ret (f s) s.

Definition modify (f : state → state) : M unit := λ s, Ret tt (f s).

(** [try: m except ...: h]: the handler decides which exceptions it takes. *)
Definition try_except {A : Type} (m : M A) (h : exn → option (M A)) : M A :=
  λ s, match m s with
       | Exc e s' => match h e with
                     | Some k => k s'
                     | None => Exc e s'
                     end
       | r => r
       end.

(** ** Library calls with effects *)

Definition logging_info (msg : string) : M unit := modify (emit (EvLog INFO msg)).

Definition logging_error (msg : string) : M unit := modify (emit (EvLog ERROR msg)).

Definition sys_exit {A : Type} (code : Z) : M A := raise (SystemExit code).

Definition py_format (t : string) (args : list string) : M string :=
  match str_format t args with
  | Some m => mret m
  | None => raise ValueError
  end.

Definition os_getenv (key : string) : M (option string) :=
  gets (λ s, environ s !! key).

(** [os.getenv(key, default)] for a default that is not a string. *)
Definition os_getenv_or (key : string) (default : pyval) : M pyval :=
  v ← os_getenv key;
  mret (match v with Some x => PyStr x | None => default end).

Definition os_stat (path : string) : M node :=
  λ s, match fs s !! path with
       | Some n => Ret n s
       | None => Exc OSError s
       end.

(** [os.path.exists]: [os.stat] guarded against [os.error]. *)
Definition os_path_exists (path : string) : M bool :=
  try_except (os_stat path;; mret true)
             (λ e, match e with OSError => Some (mret false) | _ => None end).

(** [open(path, "w")]: creates the file or truncates it. *)
Definition open_w (path : string) : M unit :=
  λ s, match fs s !! path with
       | Some Dir => Exc IOError s
       | _ => Ret tt (set_fs (<[path := File ""]> (fs s)) s)
       end.

(** [fd.write(text)] on the file opened at [path]. *)
Definition fd_write (path text : string) : M unit :=
  λ s, match fs s !! path with
       | Some (File c) => Ret tt (set_fs (<[path := File (c +:+ text)]> (fs s)) s)
       | _ => Exc IOError s
       end.

Definition os_remove (path : string) : M unit :=
  λ s, match fs s !! path with
       | Some (File _) => Ret tt (set_fs (delete path (fs s)) s)
       | _ => Exc OSError s
       end.

(** Runs the next external command and records it. *)
Definition run_external (ev : list string → event) (cmd : list string)
  : M cmd_result :=
  λ s, Ret (world s (commands_run (trace s)) cmd) (emit (ev cmd) s).

Definition subprocess_Popen (cmd : list string) : M proc_state :=
  r ← run_external EvPopen cmd;
  match r with
  | NotLaunched => raise OSError
  | Exited _ _ => mret Alive
  end.

Definition subprocess_check_call (cmd : list string) : M unit :=
  r ← run_external EvCheckCall cmd;
  match r with
  | NotLaunched => raise OSError
  | Exited code _ =>
    if Z.eqb code 0 then mret tt else raise (CalledProcessError cmd code)
  end.

Definition subprocess_check_output (cmd : list string) : M string :=
  r ← run_external EvCheckOutput cmd;
  match r with
  | NotLaunched => raise OSError
  | Exited code output =>
    if Z.eqb code 0 then mret output else raise (CalledProcessError cmd code)
  end.

(** [str(err)] for a [CalledProcessError]; the command is shown as the
    list it is, each word between single quotes. *)
Definition CalledProcessError_str (cmd : list string) (code : Z) : string :=
  "Command '[" +:+ str_join ", " (map (λ w, "'" +:+ w +:+ "'") cmd)
  +:+ "]' returned non-zero exit status " +:+ pretty code.

Definition time_sleep (seconds : Z) : M unit := modify (emit (EvSleep seconds)).

Definition atexit_register : M unit := modify (emit EvAtexit).

Definition Lock_acquire (who : actor) (l : lock) : M unit :=
  λ s, if held l s then Block
       else Ret tt (emit (EvAcquire who l) (set_held l true s)).

Definition Lock_release (who : actor) (l : lock) : M unit :=
  λ s, if held l s then Ret tt (emit (EvRelease who l) (set_held l false s))
       else Exc ThreadError s.

Definition start_renewer (p : renewer_pc) : M unit :=
  modify (λ s, emit (EvThreadStart RenewerThread) (set_renewer_t (At p) s)).

Definition start_obtain (p : obtain_pc) : M unit :=
  modify (λ s, emit (EvThreadStart ObtainThread) (set_obtain_t (At p) s)).

(** ** The program *)

Definition fail_with_error_message {A : Type} (msg : string) : M A :=
  logging_error msg;; sys_exit 1.

(** [Certbot.run] *)
Definition Certbot_run (self : Certbot.t) : M Certbot.t :=
  let self := Certbot.set_cmd (Certbot.build_cmd self) self in
  msg ← py_format "obtaining certificates for {}" [py_str (Certbot.domain self)];
  logging_info msg;;
  try_except (subprocess_check_call (Certbot.cmd self))
             (λ e, match e with
                   | CalledProcessError _ _ =>
                     Some (msg ← py_format "Command failed: {}"
                                   [str_join " " (Certbot.cmd self)];
                           fail_with_error_message msg)
                   | _ => None
                   end);;
  mret self.

(** [Process.start]; the pid is not modelled and the list of started
    processes, read only by the shutdown hook, is left out. *)
Definition Process_start (cmd : list string) : M proc_state :=
  h ← subprocess_Popen cmd;
  msg ← py_format "started {} ({})" [default "" (head cmd); "pid"];
  logging_info msg;;
  mret h.

Module Nginx.

Definition config_path : string := "/etc/nginx/conf.d/reverse_proxy.conf".

(** [start], line by line; the result is the next line, or [None] when the
    method returns.  Line 164 tests the handle and, when there is none,
    starts the server and records its handle (line 165); line 167 waits
    for the server process to exit. *)
Definition start (who : actor) (l : start_line) : M (option start_line) :=
  match l with
  | L164 =>
    h ← gets handle;
    match h with
    | None =>
      p ← Process_start NGINX_CMD;
      modify (set_handle (Some p));;
      mret (Some L166)
    | Some _ => mret None
    end
  | L166 => Lock_release who start_lock;; mret (Some L167)
  | L167 =>
    h ← gets handle;
    match h with
    | Some Gone => mret None
    | _ => block
    end
  end.

Definition write_proxy_config : M unit :=
  open_w config_path;; fd_write config_path PROXY_CONFIG.

Definition remove_proxy_config : M unit :=
  b ← os_path_exists config_path;
  if b : bool then os_remove config_path else mret tt.

(** [reload]: the signal goes to the recorded handle; with no handle the
    attribute access on [None] fails. *)
Definition reload : M unit :=
  logging_info "reloading nginx";;
  h ← gets handle;
  match h with
  | Some _ => modify (emit EvSighup)
  | None => raise AttributeError
  end.

End Nginx.

Definition live_dir_path (domain path : string) : string :=
  os_path_join LE_BASE_DIR [domain; path].

Definition certs_exist (domain : string) : M bool :=
  b ← os_path_exists (live_dir_path domain FULL_CHAIN);
  mret (negb b).

Definition create_nginx_config_file (domain : string) : M unit :=
  b ← os_path_exists "/etc/nginx/conf.d/custom/";
  custom_include ←
    (if b : bool
     then logging_info "Including custom configuration";;
          mret "include /etc/nginx/conf.d/custom/*.conf;"
     else mret "");
  let fp := os_path_join "/etc/nginx/conf.d" [domain +:+ ".conf"] in
  open_w fp;;
  text ← py_format TLS_CONFIG
           [domain;
            live_dir_path domain FULL_CHAIN;
            live_dir_path domain PRIVATE_KEY;
            live_dir_path domain CHAIN;
            custom_include];
  fd_write fp text;;
  msg ← py_format "virtual host created for {}" [domain];
  logging_info msg.

Definition parse_environment : M Config.t :=
  let config := Config.init in
  d ← os_getenv "DOMAIN";
  (if truthy_opt d then mret tt
   else fail_with_error_message "DOMAIN must be passed as an env variable");;
  e ← os_getenv "EMAIL";
  (if truthy_opt e then mret tt
   else fail_with_error_message "EMAIL must be passed as an env variable");;
  email ← os_getenv "EMAIL";
  let config := Config.set_email email config in
  domain ← os_getenv "DOMAIN";
  let config := Config.set_domain domain config in
  server ← os_getenv "SERVER";
  let config := Config.set_server server config in
  staging ← os_getenv_or "STAGING" (Config.staging Config.defaults);
  let config := Config.set_staging staging config in
  debug ← os_getenv_or "DEBUG" (Config.debug Config.defaults);
  let config := Config.set_debug debug config in
  mret config.

(** A function that takes a string, called on a value that may be [None]. *)
Definition with_str {A : Type} (o : option string) (f : string → M A) : M A :=
  match o with
  | Some x => f x
  | None => raise TypeError
  end.

(** The command of one renewal cycle (lines 314 to 316). *)
Definition renew_cmd (config : Config.t) : list string :=
  let cmd := ["certbot"; "renew"; "--pre-hook"; "nginx -s stop"] in
  if truthy (Config.debug config) then cmd ++ ["--force-renewal"] else cmd.

(** [obtain_cert], one source statement per step; [None] is the return. *)
Definition obtain_cert (pc : obtain_pc) : M (option obtain_pc) :=
  match pc with
  | O293 config => mret (Some (O295 (Certbot.init config)))
  | O295 certbot =>
    Lock_acquire ObtainThread start_lock;; mret (Some (O296 certbot))
  | O296 certbot =>
    certbot ← Certbot_run certbot; mret (Some (O297 certbot))
  | O297 certbot =>
    Nginx.remove_proxy_config;; mret (Some (O298 certbot))
  | O298 certbot =>
    with_str (Certbot.domain certbot) create_nginx_config_file;;
    mret (Some O299)
  | O299 => Nginx.reload;; mret (Some O300)
  | O300 => Lock_release ObtainThread start_lock;; mret (Some O301)
  | O301 => Lock_release ObtainThread done_lock;; mret None
  end.

(** [run_renewer]: the two acquisitions, then the body of [while True] in
    two steps, the renewal attempt and the sleep. *)
Definition run_renewer (pc : renewer_pc) : M renewer_pc :=
  match pc with
  | R310 config =>
    Lock_acquire RenewerThread done_lock;; mret (R311 config)
  | R311 config =>
    Lock_acquire RenewerThread start_lock;; mret (R314 config)
  | R314 config =>
    let cmd := renew_cmd config in
    r ← try_except
          (output ← subprocess_check_output cmd; mret (Some output))
          (λ e, match e with
                | CalledProcessError c k =>
                  Some (logging_error (CalledProcessError_str c k);;
                        mret None)
                | _ => None
                end);
    match r with
    | Some output =>
      if truthy (Config.debug config) then logging_info output else mret tt
    | None => mret tt
    end;;
    mret (R324 config)
  | R324 config => time_sleep 3600;; mret (R314 config)
  end.

(** [main], one source statement per step. *)
Definition main (pc : main_pc) : M (option main_pc) :=
  match pc with
  | M328 => Lock_acquire MainThread start_lock;; mret (Some M329)
  | M329 => Lock_acquire MainThread done_lock;; mret (Some M331)
  | M331 => atexit_register;; mret (Some M332)
  | M332 => config ← parse_environment; mret (Some (M335 config))
  | M335 config => start_renewer (R310 config);; mret (Some (M342 config))
  | M342 config =>
    b ← with_str (Config.domain config) certs_exist;
    mret (Some (if b : bool then M343 config else M347 config))
  | M343 config => Nginx.write_proxy_config;; mret (Some (M344 config))
  | M344 config => start_obtain (O293 config);; mret (Some (M345 config L164))
  | M345 config l =>
    n ← Nginx.start MainThread l;
    mret (Some (match n with
                | Some l' => M345 config l'
                | None => M347 config
                end))
  | M347 config =>
    logging_info "we already have the existing certificates";;
    mret (Some (M352 config))
  | M352 config =>
    Lock_release MainThread done_lock;; mret (Some (M353 config))
  | M353 config =>
    with_str (Config.domain config) create_nginx_config_file;;
    mret (Some (M354 L164))
  | M354 l =>
    n ← Nginx.start MainThread l;
    mret (match n with
          | Some l' => Some (M354 l')
          | None => None
          end)
  end.

(** ** Interleaving semantics *)

(** One step of the chosen actor; [None] when it cannot move (not started,
    ended, or blocked).  An exception that escapes a thread body ends that
    thread and no other: the thread bootstrap of the [threading] module
    takes every exception of the target, [SystemExit] included.  The server
    process may exit at any time once started. *)
Definition step (a : actor) (s : state) : option state :=
  match a with
  | MainThread =>
    match main_t s with
    | At pc =>
      match main pc s with
      | Ret (Some pc') s' => Some (set_main_t (At pc') s')
      | Ret None s' => Some (set_main_t (Ended None) s')
      | Exc e s' => Some (set_main_t (Ended (Some e)) s')
      | Block => None
      end
    | _ => None
    end
  | RenewerThread =>
    match renewer_t s with
    | At pc =>
      match run_renewer pc s with
      | Ret pc' s' => Some (set_renewer_t (At pc') s')
      | Exc e s' => Some (set_renewer_t (Ended (Some e)) s')
      | Block => None
      end
    | _ => None
    end
  | ObtainThread =>
    match obtain_t s with
    | At pc =>
      match obtain_cert pc s with
      | Ret (Some pc') s' => Some (set_obtain_t (At pc') s')
      | Ret None s' => Some (set_obtain_t (Ended None) s')
      | Exc e s' => Some (set_obtain_t (Ended (Some e)) s')
      | Block => None
      end
    | _ => None
    end
  | NginxProcess =>
    match handle s with
    | Some Alive => Some (set_handle (Some Gone) s)
    | _ => None
    end
  end.

(** A schedule is the list of actors that move, first move first. *)
Fixpoint run (sched : list actor) (s : state) : option state :=
  match sched with
  | [] => Some s
  | a :: rest =>
    match step a s with
    | Some s' => run rest s'
    | None => None
    end
  end.

(** The process as the interpreter starts it. *)
Definition init (env : gmap string string)
  (w : nat → list string → cmd_result) (files : gmap string node) : state :=
  {| environ := env; world := w; fs := files; trace := [];
     start_held := false; done_held := false; handle := None;
     main_t := At M328; renewer_t := NotStarted; obtain_t := NotStarted |}.

Definition finished {pc : Type} (t : thread pc) : bool :=
  match t with
  | At _ => false
  | _ => true
  end.

(** The status the interpreter exits with for what ended the main thread. *)
Definition exit_code (e : option exn) : Z :=
  match e with
  | None => 0
  | Some (SystemExit code) => code
  | Some _ => 1
  end.

(** The exit status of the process, once it has one: the main thread has
    ended and every thread it started (none is a daemon) has ended too. *)
Definition exit_status (s : state) : option Z :=
  match main_t s with
  | Ended e =>
    if finished (renewer_t s) && finished (obtain_t s)
    then Some (exit_code e) else None
  | _ => None
  end.

(** Background activity: a thread started or an external program run. *)
Definition is_background (e : event) : bool :=
  match e with
  | EvPopen _ | EvCheckCall _ | EvCheckOutput _ | EvThreadStart _ => true
  | _ => false
  end.

(** The text of the served configuration for [domain], as the server reads
    it: the template of [TLS_CONFIG] with its escapes resolved, the server
    name, the three certificate files below the live directory of the
    domain, and the include line (empty when there is no custom
    directory). *)
Definition served_config_text (domain include : string) : string :=
  "
server {
    # Based on https://mozilla.github.io/server-side-tls/ssl-config-generator/
    # for Nginx 1.11.3

    listen 443 ssl http2;
    listen [::]:443 ssl http2;
    server_name "
  +:+ domain
  +:+ ";

    ssl_session_timeout 1d;
    ssl_session_cache shared:SSL:50m;
    ssl_session_tickets off;
    ssl_certificate "
  +:+ ("/etc/letsencrypt/live/" +:+ domain +:+ "/fullchain.pem")
  +:+ ";
    ssl_certificate_key "
  +:+ ("/etc/letsencrypt/live/" +:+ domain +:+ "/privkey.pem")
  +:+ ";
    ssl_trusted_certificate "
  +:+ ("/etc/letsencrypt/live/" +:+ domain +:+ "/chain.pem")
  +:+ ";

    # intermediate configuration. tweak to your needs.
    ssl_protocols TLSv1 TLSv1.1 TLSv1.2;
    ssl_ciphers 'ECDHE-ECDSA-CHACHA20-POLY1305:ECDHE-RSA-CHACHA20-POLY1305:ECDHE-ECDSA-AES128-GCM-SHA256:ECDHE-RSA-AES128-GCM-SHA256:ECDHE-ECDSA-AES256-GCM-SHA384:ECDHE-RSA-AES256-GCM-SHA384:DHE-RSA-AES128-GCM-SHA256:DHE-RSA-AES256-GCM-SHA384:ECDHE-ECDSA-AES128-SHA256:ECDHE-RSA-AES128-SHA256:ECDHE-ECDSA-AES128-SHA:ECDHE-RSA-AES256-SHA384:ECDHE-RSA-AES128-SHA:ECDHE-ECDSA-AES256-SHA384:ECDHE-ECDSA-AES256-SHA:ECDHE-RSA-AES256-SHA:DHE-RSA-AES128-SHA256:DHE-RSA-AES128-SHA:DHE-RSA-AES256-SHA256:DHE-RSA-AES256-SHA:ECDHE-ECDSA-DES-CBC3-SHA:ECDHE-RSA-DES-CBC3-SHA:EDH-RSA-DES-CBC3-SHA:AES128-GCM-SHA256:AES256-GCM-SHA384:AES128-SHA256:AES256-SHA256:AES128-SHA:AES256-SHA:DES-CBC3-SHA:!DSS';
    ssl_prefer_server_ciphers on;

    # fetch OCSP records from URL in ssl_certificate and cache them
    ssl_stapling on;
    ssl_stapling_verify on;

    # Diffie-Hellman parameter for DHE ciphersuites, recommended 2048 bits
    ssl_dhparam /etc/ssl/certs/dhparam.pem;

    # HSTS (ngx_http_headers_module is required) (15768000 seconds = 6 months)
    add_header Strict-Transport-Security max-age=15768000;

    # A resolver must be set for resolving OCSP responder hostname
    resolver 8.8.4.4 8.8.8.8;

    # If there is a conf file, these directives will
    # be added into the server block. If there is
    # no include directive here then you need to
    # create a conf file mounted in a volume in
    # /etc/nginx/conf.d/custom/
    #
    # Note: adding duplicates to the directives defined
    # above will cause errors.
    "
  +:+ include
  +:+ "
}
".

(** ** Vocabulary of the statements *)

(** Where the served configuration of [domain] is written. *)
Definition served_config_path (domain : string) : string :=
  os_path_join "/etc/nginx/conf.d" [domain +:+ ".conf"].

(** The include line chosen by [create_nginx_config_file] in state [s]. *)
Definition custom_include (s : state) : string :=
  if bool_decide (is_Some (fs s !! "/etc/nginx/conf.d/custom/"))
  then "include /etc/nginx/conf.d/custom/*.conf;" else "".

(** A domain that is one plain path component at both ends: not empty, and
    with no separator as first or last character. *)
Definition plain_component (d : string) : bool :=
  negb (String.eqb d "") && negb (startswith_sep d) && negb (endswith_sep d).

(** The state a statement leaves behind, when it does not block. *)
Definition state_after {A : Type} (r : res A) : option state :=
  match r with
  | Ret _ s => Some s
  | Exc _ s => Some s
  | Block => None
  end.

(** The words a dictionary entry contributes to the argument vector. *)
Definition flag_group (kv : string * option string) : list string :=
  match kv.2 with
  | Some v => [kv.1; v]
  | None => [kv.1]
  end.

(** A variable that is present in the environment with a value other than
    the empty string. *)
Definition set_nonempty (env : gmap string string) (key : string) : Prop :=
  ∃ v, env !! key = Some v ∧ v ≠ "".

(** The newest external command of a trace. *)
Definition last_command (tr : list event) : option event :=
  head (List.filter is_command tr).

(** Fixtures: an environment with the two required settings, a world in
    which every command succeeds, one in which the issuer (the second
    command, after the server) exits with status 1, and a certificate
    store holding the full chain of the example domain. *)
Definition example_env : gmap string string :=
  <["DOMAIN" := "example.com"]> (<["EMAIL" := "a@example.com"]> ∅).

Definition world_ok : nat → list string → cmd_result :=
  λ _ _, Exited 0 "".

Definition world_issuer_fails : nat → list string → cmd_result :=
  λ n _, match n with
         | 1%nat => Exited 1 ""
         | _ => Exited 0 ""
         end.

Definition with_full_chain : gmap string node :=
  <["/etc/letsencrypt/live/example.com/fullchain.pem" := File "PEM"]> ∅.

(** The configuration [parse_environment] returns when it returns. *)
Definition config_of_env (env : gmap string string) : Config.t :=
  {| Config.debug := match env !! "DEBUG" with
                     | Some x => PyStr x
                     | None => PyBool false
                     end;
     Config.domain := env !! "DOMAIN";
     Config.email := env !! "EMAIL";
     Config.server := env !! "SERVER";
     Config.staging := match env !! "STAGING" with
                       | Some x => PyStr x
                       | None => PyBool false
                       end |}.

(** The text [create_nginx_config_file] writes for [domain]. *)
Definition rendered_config (domain include : string) : string :=
  default ""
    (str_format TLS_CONFIG
       [domain;
        live_dir_path domain FULL_CHAIN;
        live_dir_path domain PRIVATE_KEY;
        live_dir_path domain CHAIN;
        include]).

(** ** Vocabulary of the ordering statements *)

Definition is_renew_attempt (e : event) : bool :=
  match e with
  | EvCheckOutput _ => true
  | _ => false
  end.

(** The gate [l] is opened: some thread releases the lock. *)
Definition is_release (l : lock) (e : event) : bool :=
  match e with
  | EvRelease _ l' => bool_decide (l' = l)
  | _ => false
  end.

Definition is_release_by (t : actor) (l : lock) (e : event) : bool :=
  match e with
  | EvRelease t' l' => bool_decide (t' = t) && bool_decide (l' = l)
  | _ => false
  end.

Definition is_acquire_by (t : actor) (l : lock) (e : event) : bool :=
  match e with
  | EvAcquire t' l' => bool_decide (t' = t) && bool_decide (l' = l)
  | _ => false
  end.

(** In the trace [tr] (newest first), every event of kind [q] has an older
    event of kind [p]. *)
Definition only_after (p q : event → bool) (tr : list event) : Prop :=
  ∀ newer e older,
    tr = newer ++ e :: older → q e = true →
    ∃ e', e' ∈ older ∧ p e' = true.

(** The same, as a check on the trace. *)
Fixpoint preceded (p q : event → bool) (tr : list event) : bool :=
  match tr with
  | [] => true
  | e :: older =>
    (if q e then existsb p older else true) && preceded p q older
  end.

(** How far each thread has come, as far as the gates are concerned. *)
Inductive main_stage : Type :=
| BeforeStartLock
| BeforeDoneLock
| BeforeRenewer
| BeforeObtain
| Spawned.

Inductive renewer_stage : Type :=
| RenewerUnstarted
| AtDoneGate
| AtStartGate
| InLoop.

Inductive obtain_stage : Type :=
| ObtainUnstarted
| BeforeAcquire
| PastAcquire.

Definition stage_of_main (t : thread main_pc) : main_stage :=
  match t with
  | At M328 => BeforeStartLock
  | At M329 => BeforeDoneLock
  | At M331 | At M332 | At (M335 _) => BeforeRenewer
  | At (M342 _) | At (M343 _) | At (M344 _) => BeforeObtain
  | _ => Spawned
  end.

Definition stage_of_renewer (t : thread renewer_pc) : renewer_stage :=
  match t with
  | NotStarted => RenewerUnstarted
  | At (R310 _) => AtDoneGate
  | At (R311 _) => AtStartGate
  | _ => InLoop
  end.

Definition stage_of_obtain (t : thread obtain_pc) : obtain_stage :=
  match t with
  | NotStarted => ObtainUnstarted
  | At (O293 _) | At (O295 _) => BeforeAcquire
  | _ => PastAcquire
  end.

(** What the control point of the renewer says about the past. *)
Definition renewer_facts (s : state) : Prop :=
  let tr := trace s in
  match stage_of_renewer (renewer_t s) with
  | RenewerUnstarted | AtDoneGate =>
    existsb (is_acquire_by RenewerThread done_lock) tr = false
    ∧ existsb (is_acquire_by RenewerThread start_lock) tr = false
    ∧ existsb is_renew_attempt tr = false
  | AtStartGate =>
    existsb (is_acquire_by RenewerThread done_lock) tr = true
    ∧ existsb (is_acquire_by RenewerThread start_lock) tr = false
    ∧ existsb is_renew_attempt tr = false
    ∧ existsb (is_release done_lock) tr = true
  | InLoop =>
    existsb (is_acquire_by RenewerThread done_lock) tr = true
    ∧ existsb (is_acquire_by RenewerThread start_lock) tr = true
    ∧ existsb (is_release done_lock) tr = true
    ∧ existsb (is_release_by MainThread start_lock) tr = true
  end.

(** A lock that is free has been released. *)
Definition free_means_released (s : state) : Prop :=
  (done_held s = false → existsb (is_release done_lock) (trace s) = true)
  ∧ (start_held s = false →
     existsb (is_release_by MainThread start_lock) (trace s) = true).

(** [main] takes both locks before it starts any thread; from then on a
    lock that is free has been released. *)
Definition lock_facts (s : state) : Prop :=
  match stage_of_main (main_t s) with
  | BeforeStartLock =>
    stage_of_renewer (renewer_t s) = RenewerUnstarted
    ∧ stage_of_obtain (obtain_t s) = ObtainUnstarted
  | BeforeDoneLock =>
    stage_of_renewer (renewer_t s) = RenewerUnstarted
    ∧ stage_of_obtain (obtain_t s) = ObtainUnstarted
    ∧ start_held s = true
  | BeforeRenewer =>
    stage_of_renewer (renewer_t s) = RenewerUnstarted
    ∧ stage_of_obtain (obtain_t s) = ObtainUnstarted
    ∧ start_held s = true ∧ done_held s = true
  | BeforeObtain =>
    stage_of_obtain (obtain_t s) = ObtainUnstarted ∧ free_means_released s
  | Spawned => free_means_released s
  end.

(** Past its acquisition, [obtain_cert] has seen the server started. *)
Definition obtain_facts (s : state) : Prop :=
  stage_of_obtain (obtain_t s) = PastAcquire →
  existsb (is_release_by MainThread start_lock) (trace s) = true.

Definition order_facts (s : state) : Prop :=
  let tr := trace s in
  preceded (is_release_by MainThread start_lock) is_renew_attempt tr = true
  ∧ preceded (is_release done_lock) is_renew_attempt tr = true
  ∧ preceded (is_acquire_by RenewerThread start_lock) is_renew_attempt tr
    = true
  ∧ preceded (is_acquire_by RenewerThread done_lock)
      (is_acquire_by RenewerThread start_lock) tr = true
  ∧ preceded (is_release done_lock)
      (is_acquire_by RenewerThread done_lock) tr = true
  ∧ preceded (is_release_by MainThread start_lock)
      (is_acquire_by RenewerThread start_lock) tr = true.

Definition gate_invariant (s : state) : Prop :=
  renewer_facts s ∧ lock_facts s ∧ obtain_facts s ∧ order_facts s.

(** ** Vocabulary of the start-up and renewal statements *)

(** [main] is on its way to reading the environment, or has exited with
    status 1. *)
Definition in_startup (t : thread main_pc) : Prop :=
  match t with
  | At M328 | At M329 | At M331 | At M332
  | Ended (Some (SystemExit 1)) => True
  | _ => False
  end.

(** Steps [main] has made on the way to reading the environment. *)
Definition startup_rank (t : thread main_pc) : nat :=
  match t with
  | At M328 => 0
  | At M329 => 1
  | At M331 => 2
  | At M332 => 3
  | _ => 4
  end.

(** Nothing runs beside the main thread and nothing has been launched. *)
Definition no_background (s : state) : Prop :=
  renewer_t s = NotStarted ∧ obtain_t s = NotStarted ∧ handle s = None
  ∧ existsb is_background (trace s) = false.

Definition is_sleep (e : event) : bool :=
  match e with
  | EvSleep seconds => Z.eqb seconds 3600
  | _ => false
  end.

Definition count_events (p : event → bool) (tr : list event) : nat :=
  List.length (List.filter p tr).

(** The state after one renewal cycle whose command exited with [code]. *)
Definition after_failed_cycle (config : Config.t) (code : Z) (s : state)
  : state :=
  set_renewer_t (At (R314 config))
    (emit (EvSleep 3600)
       (set_renewer_t (At (R324 config))
          (emit (EvLog ERROR (CalledProcessError_str (renew_cmd config) code))
             (emit (EvCheckOutput (renew_cmd config)) s)))).

(** ** Vocabulary of the configuration-file statements *)

(** The claim that one path holds both variants: some path [p] is the only
    one either writer touches. *)
Definition single_config_path (domain : string) : Prop :=
  ∃ p : string, ∀ s s1 s2,
    Nginx.write_proxy_config s = Ret tt s1 →
    create_nginx_config_file domain s = Ret tt s2 →
    is_Some (fs s1 !! p) ∧ is_Some (fs s2 !! p)
    ∧ ∀ q, q ≠ p → fs s1 !! q = fs s !! q ∧ fs s2 !! q = fs s !! q.

(** The domain held by the locals of a control point. *)
Definition main_domain (t : thread main_pc) : option (option string) :=
  match t with
  | At (M335 c) | At (M342 c) | At (M343 c) | At (M344 c) | At (M345 c _)
  | At (M347 c) | At (M352 c) | At (M353 c) => Some (Config.domain c)
  | _ => None
  end.

Definition obtain_domain (t : thread obtain_pc) : option (option string) :=
  match t with
  | At (O293 c) => Some (Config.domain c)
  | At (O295 cb) | At (O296 cb) | At (O297 cb) | At (O298 cb) =>
    Some (Certbot.domain cb)
  | _ => None
  end.

Inductive config_stage : Type :=
| PreWrite
| BootstrapWritten
| WaitingOnServer (l : start_line)
| PresentPath
| ServedWritten
| MainEnded.

Definition config_stage_of (t : thread main_pc) : config_stage :=
  match t with
  | At M328 | At M329 | At M331 | At M332 | At (M335 _) | At (M342 _)
  | At (M343 _) | NotStarted => PreWrite
  | At (M344 _) => BootstrapWritten
  | At (M345 _ l) => WaitingOnServer l
  | At (M347 _) | At (M352 _) | At (M353 _) => PresentPath
  | At (M354 _) => ServedWritten
  | Ended _ => MainEnded
  end.

Inductive switch_stage : Type :=
| SwitchUnstarted
| BeforeRemove
| BeforeCreate
| AfterCreate
| ObtainEnded.

Definition switch_stage_of (t : thread obtain_pc) : switch_stage :=
  match t with
  | NotStarted => SwitchUnstarted
  | At (O293 _) | At (O295 _) | At (O296 _) | At (O297 _) => BeforeRemove
  | At (O298 _) => BeforeCreate
  | At O299 | At O300 | At O301 => AfterCreate
  | Ended _ => ObtainEnded
  end.

(** What the issuance workflow guarantees about the two artifacts. *)
Definition switch_facts (D : string) (s : state) : Prop :=
  match switch_stage_of (obtain_t s) with
  | SwitchUnstarted | BeforeRemove => fs s !! served_config_path D = None
  | BeforeCreate =>
    fs s !! Nginx.config_path = None ∧ fs s !! served_config_path D = None
  | AfterCreate => fs s !! Nginx.config_path = None
  | ObtainEnded =>
    fs s !! Nginx.config_path = None ∨ fs s !! served_config_path D = None
  end.

Definition exclusive_invariant (env : gmap string string) (D : string)
  (s : state) : Prop :=
  environ s = env
  ∧ handle s ≠ Some Gone
  ∧ (∀ d, main_domain (main_t s) = Some d → d = Some D)
  ∧ (∀ d, obtain_domain (obtain_t s) = Some d → d = Some D)
  ∧ match config_stage_of (main_t s) with
    | PreWrite | PresentPath =>
      fs s !! Nginx.config_path = None
      ∧ fs s !! served_config_path D = None
      ∧ switch_stage_of (obtain_t s) = SwitchUnstarted
      ∧ handle s = None
    | BootstrapWritten =>
      fs s !! served_config_path D = None
      ∧ switch_stage_of (obtain_t s) = SwitchUnstarted
      ∧ handle s = None
    | WaitingOnServer l =>
      switch_facts D s ∧ (l = L164 → handle s = None)
    | ServedWritten =>
      fs s !! Nginx.config_path = None
      ∧ switch_stage_of (obtain_t s) = SwitchUnstarted
    | MainEnded =>
      (fs s !! Nginx.config_path = None
       ∧ switch_stage_of (obtain_t s) = SwitchUnstarted)
      ∨ switch_facts D s
    end.

(** ** Vocabulary of the failed-issuance statement *)

(** The issuer has failed: its thread is gone with the start lock, the
    renewer is still in front of a gate, and [main] is past the start of
    the server. *)
Definition stranded (s : state) : Prop :=
  (∃ e, obtain_t s = Ended e)
  ∧ start_held s = true
  ∧ is_Some (handle s)
  ∧ match stage_of_renewer (renewer_t s) with
    | AtDoneGate | AtStartGate => True
    | _ => False
    end
  ∧ match main_t s with
    | At (M345 _ L167) | At (M347 _) | At (M352 _) | At (M353 _)
    | At (M354 L164) | Ended _ => True
    | _ => False
    end.

(** The schedule never lets the server process exit. *)
Definition server_keeps_running (sched : list actor) : bool :=
  forallb (λ a, match a with NginxProcess => false | _ => true end) sched.

(** More fixtures: a world in which every command exits with status 1, an
    environment with both optional switches set to texts that read as
    "off", the schedule that takes the issuance path up to the second
    renewal cycle, and a state at the head of the renewal loop. *)
Definition world_renew_fails : nat → list string → cmd_result :=
  λ _ _, Exited 1 "".

Definition env_switches : gmap string string :=
  <["STAGING" := "0"]> (<["DEBUG" := "false"]> example_env).

Definition issuance_schedule : list actor :=
  repeat MainThread 10 ++ repeat ObtainThread 8 ++ repeat RenewerThread 5.

Definition at_loop_head : state :=
  set_renewer_t (At (R314 (config_of_env example_env)))
    (init example_env world_renew_fails ∅).

(** * Further vocabulary *)

(** ** Events of the server and of the issuer *)

Definition is_popen (e : event) : bool :=
  match e with
  | EvPopen _ => true
  | _ => false
  end.

Definition is_check_call (e : event) : bool :=
  match e with
  | EvCheckCall _ => true
  | _ => false
  end.

Definition is_sighup (e : event) : bool :=
  match e with
  | EvSighup => true
  | _ => false
  end.

(** In the trace [tr], at most one event is of kind [p]. *)
Fixpoint at_most_once (p : event → bool) (tr : list event) : bool :=
  match tr with
  | [] => true
  | e :: older =>
    (if p e then negb (existsb p older) else true) && at_most_once p older
  end.

(** ** The renewal rhythm *)

Inductive cycle_stage : Type :=
| OutsideLoop
| AttemptNext
| SleepNext
| RenewerOver.

Definition cycle_stage_of (t : thread renewer_pc) : cycle_stage :=
  match t with
  | NotStarted | At (R310 _) | At (R311 _) => OutsideLoop
  | At (R314 _) => AttemptNext
  | At (R324 _) => SleepNext
  | Ended _ => RenewerOver
  end.

(** Attempts and sleeps seen so far, by the control point of the renewer. *)
Definition rhythm_invariant (s : state) : Prop :=
  let attempts := count_events is_renew_attempt (trace s) in
  let sleeps := count_events is_sleep (trace s) in
  match cycle_stage_of (renewer_t s) with
  | OutsideLoop => attempts = 0%nat ∧ sleeps = 0%nat
  | AttemptNext => attempts = sleeps
  | SleepNext | RenewerOver => attempts = S sleeps
  end.

(** A thread is started once: when [main] is about to start it, it has not
    been started. *)
Definition spawn_fresh (s : state) : Prop :=
  (∀ c, main_t s = At (M335 c) → renewer_t s = NotStarted)
  ∧ (∀ c, main_t s = At (M344 c) → obtain_t s = NotStarted).

(** ** The server and the issuer *)

Inductive launch_stage : Type :=
| BeforeLaunch
| Launched
| MainOver.

Definition launch_stage_of (t : thread main_pc) : launch_stage :=
  match t with
  | At (M345 _ L166) | At (M345 _ L167) | At (M354 L166) | At (M354 L167) =>
    Launched
  | At _ => BeforeLaunch
  | _ => MainOver
  end.

Inductive issue_stage : Type :=
| NotHolding
| Holding
| Issued
| Reloaded
| IssueOver.

Definition issue_stage_of (t : thread obtain_pc) : issue_stage :=
  match t with
  | NotStarted | At (O293 _) | At (O295 _) => NotHolding
  | At (O296 _) => Holding
  | At (O297 _) | At (O298 _) | At O299 => Issued
  | At O300 | At O301 => Reloaded
  | Ended _ => IssueOver
  end.

Definition has_handle (s : state) : bool :=
  match handle s with
  | Some _ => true
  | None => false
  end.

Definition ended_with (e : exn) (t : thread obtain_pc) : bool :=
  match t, e with
  | Ended (Some AttributeError), AttributeError => true
  | _, _ => false
  end.

(** What the control points say about the server and the issuer: a
    handle means the server was launched, the start lock is released by
    [main] only with a handle, and [obtain_cert] holds the start lock, has
    run the issuer, has signalled the server, in that order. *)
Definition server_invariant (s : state) : Prop :=
  let tr := trace s in
  match launch_stage_of (main_t s) with
  | BeforeLaunch => has_handle s = false → existsb is_popen tr = false
  | Launched => has_handle s = true
  | MainOver => True
  end
  ∧ (has_handle s = true → existsb is_popen tr = true)
  ∧ (existsb (is_release_by MainThread start_lock) tr = true →
     has_handle s = true)
  ∧ match issue_stage_of (obtain_t s) with
    | NotHolding =>
      existsb (is_acquire_by ObtainThread start_lock) tr = false
      ∧ existsb is_check_call tr = false
      ∧ existsb is_sighup tr = false
    | Holding =>
      existsb (is_acquire_by ObtainThread start_lock) tr = true
      ∧ existsb is_check_call tr = false
      ∧ existsb is_sighup tr = false
      ∧ has_handle s = true
    | Issued =>
      existsb (is_acquire_by ObtainThread start_lock) tr = true
      ∧ existsb is_check_call tr = true
      ∧ existsb is_sighup tr = false
      ∧ has_handle s = true
    | Reloaded | IssueOver =>
      existsb (is_acquire_by ObtainThread start_lock) tr = true
      ∧ existsb is_check_call tr = true
      ∧ has_handle s = true
    end
  ∧ ended_with AttributeError (obtain_t s) = false
  ∧ at_most_once is_popen tr = true
  ∧ at_most_once is_check_call tr = true
  ∧ at_most_once is_sighup tr = true
  ∧ preceded is_popen (is_release_by MainThread start_lock) tr = true
  ∧ preceded (is_release_by MainThread start_lock)
      (is_acquire_by ObtainThread start_lock) tr = true
  ∧ preceded (is_acquire_by ObtainThread start_lock) is_check_call tr = true
  ∧ preceded is_popen is_check_call tr = true
  ∧ preceded is_check_call is_sighup tr = true
  ∧ preceded is_popen is_sighup tr = true.

(** What the gates give a thread that [main] has started. *)
Definition started_sees_release (s : state) : Prop :=
  stage_of_obtain (obtain_t s) ≠ ObtainUnstarted →
  start_held s = false →
  existsb (is_release_by MainThread start_lock) (trace s) = true.

(** ** Start-up with a certificate in place *)

Inductive present_stage : Type :=
| BeforeCheck
| IssuanceBranch
| AfterCheck.

Definition present_stage_of (t : thread main_pc) : present_stage :=
  match t with
  | At M328 | At M329 | At M331 | At M332 | At (M335 _) | At (M342 _) =>
    BeforeCheck
  | At (M343 _) | At (M344 _) | At (M345 _ _) => IssuanceBranch
  | _ => AfterCheck
  end.

(** With the full chain of [D] among [files]: [main] never enters the
    issuance branch, and only the served configuration is ever written. *)
Definition present_invariant (env : gmap string string)
  (files : gmap string node) (D : string) (s : state) : Prop :=
  environ s = env
  ∧ obtain_t s = NotStarted
  ∧ existsb is_check_call (trace s) = false
  ∧ (∀ d, main_domain (main_t s) = Some d → d = Some D)
  ∧ (∀ p, p ≠ served_config_path D → fs s !! p = files !! p)
  ∧ match present_stage_of (main_t s) with
    | BeforeCheck => fs s = files
    | IssuanceBranch => False
    | AfterCheck => True
    end.

(** ** The registry of started processes

    The class [Process] with the list it keeps.  The operating system is a
    table from pid to the state of the process ([poll] reads it), a
    counter for the next pid and a test telling which commands can be
    launched.  A signal sent is recorded with the pid it goes to; the
    death of the process it hits is the system's business, not the
    program's, and is not part of [kill]. *)

Module Process.

Inductive error : Type :=
| ValueError
| IndexError
| OSError.

(** The values [start] and [kill] may be handed. *)
Inductive pyobj : Type :=
| PyList (items : list string)
| PyPopen (pid : nat)
| PyText (text : string).

Record world : Type := mk {
  table : gmap nat proc_state;
  next_pid : nat;
  launchable : list string → bool;
  processes : list nat;
  events : list event;
  signals : list nat
}.

Definition result (A : Type) : Type := (error + A) * world.

Definition record (e : event) (w : world) : world :=
  mk (table w) (next_pid w) (launchable w) (processes w) (e :: events w)
     (signals w).

Definition logging_info (msg : string) (w : world) : world :=
  record (EvLog INFO msg) w.

(** [subprocess.Popen(cmd)] for a list: the first word is the program. *)
Definition Popen (cmd : list string) (w : world) : result nat :=
  match cmd with
  | [] => (inl IndexError, w)
  | _ :: _ =>
    if launchable w cmd then
      (inr (next_pid w),
       mk (<[next_pid w := Alive]> (table w)) (S (next_pid w))
          (launchable w) (processes w) (EvPopen cmd :: events w)
          (signals w))
    else (inl OSError, record (EvPopen cmd) w)
  end.

(** [handle.poll() is None] *)
Definition polls_none (w : world) (pid : nat) : bool :=
  match table w !! pid with
  | Some Alive => true
  | _ => false
  end.

Definition append_handle (pid : nat) (w : world) : world :=
  mk (table w) (next_pid w) (launchable w) (processes w ++ [pid])
     (events w) (signals w).

Definition send_sigkill (pid : nat) (w : world) : world :=
  mk (table w) (next_pid w) (launchable w) (processes w) (events w)
     (pid :: signals w).

(** [Process.start(cmd, add)]; the body never reads [add]. *)
Definition start (cmd : pyobj) (add : bool) (w : world) : result nat :=
  match cmd with
  | PyList l =>
    match Popen l w with
    | (inr pid, w1) =>
      match str_format "started {} ({})" [default "" (head l); pretty pid]
      with
      | Some msg => (inr pid, append_handle pid (logging_info msg w1))
      | None => (inl ValueError, w1)
      end
    | (inl e, w1) => (inl e, w1)
    end
  | _ => (inl ValueError, w)
  end.

(** [Process.kill(handle)]; the signal to a process that is no longer in
    the table fails. *)
Definition kill (handle : pyobj) (w : world) : result unit :=
  match handle with
  | PyPopen pid =>
    match str_format "sending SIGKILL to pid {}" [pretty pid] with
    | Some msg =>
      let w1 := logging_info msg w in
      if polls_none w1 pid then (inr tt, send_sigkill pid w1)
      else (inl OSError, w1)
    | None => (inl ValueError, w)
    end
  | _ => (inl ValueError, w)
  end.

(** The loop of [kill_all] over the handles left to visit. *)
Fixpoint kill_each (handles : list nat) (w : world) : result unit :=
  match handles with
  | [] => (inr tt, w)
  | pid :: rest =>
    if polls_none w pid then
      match kill (PyPopen pid) w with
      | (inr _, w1) => kill_each rest w1
      | (inl e, w1) => (inl e, w1)
      end
    else kill_each rest w
  end.

Definition kill_all (w : world) : result unit :=
  kill_each (processes w) (logging_info "performing shutdown clean up" w).

(** Starting the commands of a list one after the other, up to the first
    failure: the pids started and the world left. *)
Fixpoint start_each (cmds : list (list string * bool)) (w : world)
  : list nat * world :=
  match cmds with
  | [] => ([], w)
  | (cmd, add) :: rest =>
    match start (PyList cmd) add w with
    | (inr pid, w1) =>
      let '(pids, w2) := start_each rest w1 in (pid :: pids, w2)
    | (inl _, w1) => ([], w1)
    end
  end.

(** The record [kill] logs for a pid. *)
Definition kill_record (pid : nat) : event :=
  EvLog INFO ("sending SIGKILL to pid " +:+ pretty pid +:+ "").

End Process.

(** A schedule of the start-up that finds the certificate in place: [main]
    up to the wait on the server, then the renewer through its first
    attempt. *)
Definition present_schedule : list actor :=
  repeat MainThread 11 ++ repeat RenewerThread 5.

(** * Properties *)

#[local] Set Warnings "-clear-no-such-hyp".

Ltac msimpl :=
  repeat (unfold mbind, mret, M_bind, M_ret, gets, modify, raise, block,
          try_except in *; simpl in *).

(** ** Strings and paths *)

Lemma str_app_nil_r (a : string) : a +:+ "" = a.
Proof.
  induction a as [|c a IH]; [done|].
  change (String c a +:+ "") with (String c (a +:+ "")). by rewrite IH.
Qed.

Lemma str_app_assoc (a b c : string) : (a +:+ b) +:+ c = a +:+ b +:+ c.
Proof.
  induction a as [|x a IH]; [done|].
  change (String x (a +:+ b) +:+ c = String x (a +:+ b +:+ c)).
  change (String x ((a +:+ b) +:+ c) = String x (a +:+ b +:+ c)).
  by rewrite IH.
Qed.

Lemma endswith_sep_app (a b : string) :
  b ≠ "" → endswith_sep (a +:+ b) = endswith_sep b.
Proof.
  intros Hb. induction a as [|c a IH]; [done|].
  change (String c a +:+ b) with (String c (a +:+ b)).
  destruct (a +:+ b) as [|c' r] eqn:E.
  - destruct a; [change ("" +:+ b) with b in E; congruence|discriminate].
  - by rewrite <- IH.
Qed.

Lemma plain_component_inv (d : string) :
  plain_component d = true →
  d ≠ "" ∧ startswith_sep d = false ∧ endswith_sep d = false.
Proof.
  unfold plain_component. intros H.
  apply andb_prop in H as [H H3]. apply andb_prop in H as [H1 H2].
  apply negb_true_iff in H1, H2, H3. repeat split; try done.
  intros ->. discriminate.
Qed.

(** Below the live directory of a plain domain, [os.path.join] only puts
    separators between the components. *)
Lemma live_dir_path_plain (d p : string) :
  plain_component d = true → p ≠ "" → startswith_sep p = false →
  live_dir_path d p = "/etc/letsencrypt/live/" +:+ d +:+ "/" +:+ p.
Proof.
  intros (Hd & Hs & He)%plain_component_inv Hp Hsp.
  unfold live_dir_path, os_path_join. simpl.
  unfold join_component at 2. rewrite Hs. simpl.
  unfold join_component. rewrite Hsp.
  rewrite !endswith_sep_app by (done || by destruct d).
  rewrite He. unfold LE_BASE_DIR.
  change (("/etc/letsencrypt/live" +:+ "/" +:+ d =? "")%string) with false.
  reflexivity.
Qed.

Lemma startswith_sep_app (d e : string) :
  d ≠ "" → startswith_sep (d +:+ e) = startswith_sep d.
Proof. by destruct d. Qed.

Lemma served_config_path_plain (d : string) :
  plain_component d = true →
  served_config_path d = "/etc/nginx/conf.d/" +:+ d +:+ ".conf".
Proof.
  intros (Hd & Hs & He)%plain_component_inv.
  unfold served_config_path, os_path_join. simpl.
  unfold join_component. rewrite startswith_sep_app, Hs by done.
  reflexivity.
Qed.

(** ** The file system primitives *)

Lemma os_path_exists_spec (p : string) (s : state) :
  os_path_exists p s = Ret (bool_decide (is_Some (fs s !! p))) s.
Proof.
  unfold os_path_exists, os_stat. msimpl.
  by destruct (fs s !! p).
Qed.

Lemma certs_exist_spec (d : string) (s : state) :
  certs_exist d s
  = Ret (negb (bool_decide (is_Some (fs s !! live_dir_path d FULL_CHAIN)))) s.
Proof.
  unfold certs_exist. unfold mbind, M_bind. by rewrite os_path_exists_spec.
Qed.

(** Opening for writing and writing once leaves exactly the text written;
    only a directory at the path makes it fail. *)
Lemma open_write_spec (p text : string) (s : state) :
  (open_w p;; fd_write p text) s
  = match fs s !! p with
    | Some Dir => Exc IOError s
    | _ => Ret tt (set_fs (<[p := File text]> (fs s)) s)
    end.
Proof.
  unfold open_w, fd_write. msimpl.
  destruct (fs s !! p) as [[c|]|] eqn:E; simpl; try done;
    rewrite lookup_insert_eq, insert_insert_eq; done.
Qed.

(** ** The served configuration *)

Lemma TLS_CONFIG_format (d inc : string) :
  str_format TLS_CONFIG
    [d;
     "/etc/letsencrypt/live/" +:+ d +:+ "/" +:+ FULL_CHAIN;
     "/etc/letsencrypt/live/" +:+ d +:+ "/" +:+ PRIVATE_KEY;
     "/etc/letsencrypt/live/" +:+ d +:+ "/" +:+ CHAIN;
     inc]
  = Some (served_config_text d inc).
Proof. vm_compute. reflexivity. Qed.

Lemma format_virtual_host (d : string) :
  str_format "virtual host created for {}" [d]
  = Some ("virtual host created for " +:+ d +:+ "").
Proof. reflexivity. Qed.

(** C8. Every served configuration that [create_nginx_config_file]
    generates for a domain [D] (one plain path component) is the file
    [/etc/nginx/conf.d/D.conf] holding the server block whose three
    certificate directives name [/etc/letsencrypt/live/D/fullchain.pem],
    [/etc/letsencrypt/live/D/privkey.pem] and
    [/etc/letsencrypt/live/D/chain.pem]; this holds from every state [s],
    so after any number of earlier switches between the two variants, and
    no other file is touched. *)
Theorem served_config_references_three_paths (D : string) (s s' : state) :
  plain_component D = true →
  create_nginx_config_file D s = Ret tt s' →
  fs s' = <["/etc/nginx/conf.d/" +:+ D +:+ ".conf"
            := File (served_config_text D (custom_include s))]> (fs s).
Proof.
  intros HD H. unfold create_nginx_config_file in H.
  rewrite !live_dir_path_plain in H by done.
  fold (served_config_path D) in H.
  rewrite served_config_path_plain in H by done.
  unfold mbind at 1, M_bind at 1 in H. rewrite os_path_exists_spec in H.
  unfold custom_include.
  destruct (bool_decide _);
    cbv beta iota delta
      [mbind M_bind mret M_ret logging_info modify open_w py_format] in H;
    cbn [fs set_fs emit set_trace] in H;
    (destruct (fs s !! _) as [[c|]|]; [|discriminate|]);
    rewrite TLS_CONFIG_format in H;
    cbv beta iota delta [fd_write] in H;
    cbn [fs set_fs emit set_trace] in H;
    rewrite lookup_insert_eq, format_virtual_host in H;
    injection H as <-; cbn [fs set_fs emit set_trace];
    by rewrite insert_insert_eq.
Qed.

(** ** The certificate check *)

(** C1 (the code departs from the claim).  [certs_exist] never raises and
    answers the negation of the existence of the full-chain artifact: for
    every domain and state it returns [not exists].  So with the full
    chain of [example.com] present below the base path it answers
    [False], and with an empty file system (no base directory at all) it
    answers [True]. *)
Theorem certs_exist_answers_absence :
  (∀ domain s,
     certs_exist domain s
     = Ret (negb (bool_decide
                    (is_Some (fs s !! live_dir_path domain FULL_CHAIN)))) s)
  ∧ live_dir_path "example.com" FULL_CHAIN
    = "/etc/letsencrypt/live/example.com/fullchain.pem"
  ∧ (let present := init example_env world_ok with_full_chain in
     certs_exist "example.com" present = Ret false present)
  ∧ (let absent := init example_env world_ok ∅ in
     certs_exist "example.com" absent = Ret true absent).
Proof.
  split; [exact certs_exist_spec|].
  split; [reflexivity|].
  split; cbv zeta; rewrite certs_exist_spec; reflexivity.
Qed.

(** ** The bootstrap configuration *)

Lemma set_fs_same (s : state) : set_fs (fs s) s = s.
Proof. by destruct s. Qed.

Lemma remove_proxy_config_spec (s : state) :
  fs s !! Nginx.config_path ≠ Some Dir →
  Nginx.remove_proxy_config s
  = Ret tt (set_fs (delete Nginx.config_path (fs s)) s).
Proof.
  intros Hdir. unfold Nginx.remove_proxy_config.
  unfold mbind at 1, M_bind at 1. rewrite os_path_exists_spec.
  unfold os_remove, mret, M_ret.
  destruct (fs s !! Nginx.config_path) as [[c|]|] eqn:E; try done.
  - rewrite bool_decide_eq_true_2 by eauto. by rewrite E.
  - rewrite bool_decide_eq_false_2 by (by intros [? ?]).
    by rewrite delete_id, set_fs_same.
Qed.

Lemma write_proxy_config_spec (s : state) :
  fs s !! Nginx.config_path ≠ Some Dir →
  Nginx.write_proxy_config s
  = Ret tt (set_fs (<[Nginx.config_path := File PROXY_CONFIG]> (fs s)) s).
Proof.
  intros Hdir. unfold Nginx.write_proxy_config. rewrite open_write_spec.
  by destruct (fs s !! Nginx.config_path) as [[c|]|].
Qed.

(** C7. As long as the path of the bootstrap artifact is not a directory:
    removing succeeds and leaves the path absent, removing again succeeds
    and changes nothing, and removing when the artifact is absent changes
    nothing at all; writing succeeds and leaves exactly [PROXY_CONFIG] at
    the path whatever was there, and writing again changes nothing. *)
Theorem bootstrap_remove_idempotent_write_overwrites (s : state) :
  fs s !! Nginx.config_path ≠ Some Dir →
  ∃ s1 s2,
    Nginx.remove_proxy_config s = Ret tt s1
    ∧ fs s1 !! Nginx.config_path = None
    ∧ Nginx.remove_proxy_config s1 = Ret tt s1
    ∧ (fs s !! Nginx.config_path = None → s1 = s)
    ∧ Nginx.write_proxy_config s = Ret tt s2
    ∧ fs s2 = <[Nginx.config_path := File PROXY_CONFIG]> (fs s)
    ∧ Nginx.write_proxy_config s2 = Ret tt s2.
Proof.
  intros Hdir.
  exists (set_fs (delete Nginx.config_path (fs s)) s),
         (set_fs (<[Nginx.config_path := File PROXY_CONFIG]> (fs s)) s).
  split; [by apply remove_proxy_config_spec|].
  split; [apply lookup_delete_eq|].
  split.
  { rewrite remove_proxy_config_spec by (simpl; by rewrite lookup_delete_eq).
    simpl. by rewrite delete_delete_eq. }
  split; [intros Hnone; by rewrite delete_id, set_fs_same|].
  split; [by apply write_proxy_config_spec|].
  split; [done|].
  rewrite write_proxy_config_spec by (simpl; by rewrite lookup_insert_eq).
  simpl. by rewrite insert_insert_eq.
Qed.

(** ** The issuance invocation *)

Lemma fold_append_item (l : list (string * option string)) (base : list string) :
  fold_left Certbot.append_item l base = base ++ concat (flag_group <$> l).
Proof.
  revert base. induction l as [|[k v] l IH]; intros base; simpl.
  - by rewrite app_nil_r.
  - rewrite IH. unfold Certbot.append_item, flag_group. simpl.
    destruct v; by rewrite <- app_assoc.
Qed.

Lemma build_cmd_groups (self : Certbot.t) :
  Certbot.build_cmd self
  = Certbot.cmd self ++ concat (flag_group <$> map_to_list (Certbot.args self)).
Proof. apply fold_append_item. Qed.

(** The issuer object right after its construction. *)
Lemma init_closed (config : Config.t) :
  Certbot.init config
  = Certbot.mk
      (<["--preferred-challenges" := Some "http-01"]>
        ((if truthy_opt (Config.server config)
          then <["--server" := Config.server config]> else id)
          ((if truthy (Config.debug config)
            then <["-vvv" := Some "--text"]> else id)
            ((if truthy (Config.staging config)
              then <["--staging" := None]> else id)
              (<["--must-staple" := None]>
                (<["--agree-tos" := None]>
                  (<["--non-interactive" := None]>
                    (<["--standalone" := None]>
                      (<["--email" := Config.email config]>
                        (<["--domain" := Config.domain config]> ∅))))))))))
      config (Config.domain config) (Config.email config)
      ["certbot"; "certonly"].
Proof.
  unfold Certbot.init.
  destruct (truthy (Config.staging config)), (truthy (Config.debug config)),
    (truthy_opt (Config.server config)); reflexivity.
Qed.

(** Moves the head of the left list to where it stands in the right one. *)
Lemma perm_insert {A : Type} (x : A) (l l1 l2 : list A) :
  l ≡ₚ l1 ++ l2 → x :: l ≡ₚ l1 ++ x :: l2.
Proof. intros ->. apply Permutation_middle. Qed.

Ltac perm_head :=
  lazymatch goal with
  | |- [] ≡ₚ [] => reflexivity
  | |- ?x :: ?l ≡ₚ ?r =>
    let rec go pre r :=
      lazymatch r with
      | x :: ?r' =>
        let l1 := eval cbv [List.rev app] in (List.rev pre) in
        apply (perm_insert x l l1 r'); cbn [app]
      | ?y :: ?r' => go (y :: pre) r'
      end in
    go (@nil (list string)) r
  end.

Lemma init_args_groups (D E : string) (server : option string)
  (staging debug : pyval) :
  flag_group <$>
    map_to_list (Certbot.args
      (Certbot.init (Config.mk debug (Some D) (Some E) server staging)))
  ≡ₚ [["--domain"; D]; ["--email"; E]; ["--standalone"];
      ["--non-interactive"]; ["--agree-tos"]; ["--must-staple"];
      ["--preferred-challenges"; "http-01"]]
     ++ (if truthy staging then [["--staging"]] else [])
     ++ (if truthy debug then [["-vvv"; "--text"]] else [])
     ++ (match server with
         | Some url => if truthy_opt server then [["--server"; url]] else []
         | None => []
         end).
Proof.
  rewrite init_closed.
  cbn [Config.staging Config.debug Config.server Config.domain Config.email
       Certbot.args].
  destruct (truthy staging), (truthy debug), server as [url|];
    cbn [truthy_opt]; try destruct (negb _); cbn [id].
  all: repeat (rewrite map_to_list_insert by (by vm_compute)).
  all: rewrite map_to_list_empty; cbn [fmap list_fmap flag_group fst snd app].
  all: repeat perm_head.
Qed.

(** What [Certbot.run] does, by the answer of the world to its command:
    it logs, runs the argument vector built from the dictionary, and on a
    non-zero exit logs the failed invocation and raises [SystemExit(1)]. *)
Lemma Certbot_run_spec (self : Certbot.t) (s : state) :
  let cmd := Certbot.build_cmd self in
  let s1 :=
    emit (EvCheckCall cmd)
      (emit (EvLog INFO ("obtaining certificates for "
                         +:+ py_str (Certbot.domain self) +:+ "")) s) in
  Certbot_run self s
  = match world s (commands_run (trace s)) cmd with
    | Exited code _ =>
      if Z.eqb code 0 then Ret (Certbot.set_cmd cmd self) s1
      else Exc (SystemExit 1)
             (emit (EvLog ERROR ("Command failed: "
                                 +:+ str_join " " cmd +:+ "")) s1)
    | NotLaunched => Exc OSError s1
    end.
Proof.
  unfold Certbot_run, subprocess_check_call, run_external,
    fail_with_error_message, sys_exit, logging_error, logging_info, py_format.
  cbn [Certbot.set_cmd Certbot.cmd Certbot.domain].
  change (str_format "obtaining certificates for {}"
            [py_str (Certbot.domain self)])
    with (Some ("obtaining certificates for "
                +:+ py_str (Certbot.domain self) +:+ "")).
  change (str_format "Command failed: {}"
            [str_join " " (Certbot.build_cmd self)])
    with (Some ("Command failed: "
                +:+ str_join " " (Certbot.build_cmd self) +:+ "")).
  msimpl.
  destruct (world s _ _) as [code out|]; [|done].
  by destruct (Z.eqb code 0).
Qed.

(** C4. For domain [D] and e-mail [E], the command that [Certbot.run]
    hands to [check_call] is [certbot certonly] followed by the words of
    one group per flag, the groups being, in some order, the seven fixed
    ones and, for each optional setting that is configured, its own:
    [--staging]; [-vvv --text]; [--server URL].  With no optional setting
    the three conditional lists are empty and the seven fixed groups are
    all there is. *)
Theorem issuance_flag_set (D E : string) (server : option string)
  (staging debug : pyval) (s : state) :
  let config := Config.mk debug (Some D) (Some E) server staging in
  let certbot := Certbot.init config in
  ∃ (groups : list (list string)) (s' : state),
    Certbot.build_cmd certbot = ["certbot"; "certonly"] ++ concat groups
    ∧ groups ≡ₚ
        [["--domain"; D]; ["--email"; E]; ["--standalone"];
         ["--non-interactive"]; ["--agree-tos"]; ["--must-staple"];
         ["--preferred-challenges"; "http-01"]]
        ++ (if truthy staging then [["--staging"]] else [])
        ++ (if truthy debug then [["-vvv"; "--text"]] else [])
        ++ (match server with
            | Some url => if truthy_opt server then [["--server"; url]] else []
            | None => []
            end)
    ∧ state_after (Certbot_run certbot s) = Some s'
    ∧ last_command (trace s') = Some (EvCheckCall (Certbot.build_cmd certbot)).
Proof.
  intros config certbot.
  exists (flag_group <$> map_to_list (Certbot.args certbot)).
  pose proof (Certbot_run_spec certbot s) as Hrun. cbv zeta in Hrun.
  rewrite Hrun.
  assert (Hcmd : Certbot.cmd certbot = ["certbot"; "certonly"]).
  { unfold certbot. by rewrite init_closed. }
  destruct (world s _ _) as [code out|]; [destruct (Z.eqb code 0)|];
    eexists; (split; [by rewrite build_cmd_groups, Hcmd|]);
    (split; [apply init_args_groups|]); split; reflexivity.
Qed.

(** ** The environment *)

Lemma parse_environment_spec (s : state) :
  parse_environment s
  = if truthy_opt (environ s !! "DOMAIN") then
      if truthy_opt (environ s !! "EMAIL") then
        Ret (config_of_env (environ s)) s
      else
        Exc (SystemExit 1)
          (emit (EvLog ERROR "EMAIL must be passed as an env variable") s)
    else
      Exc (SystemExit 1)
        (emit (EvLog ERROR "DOMAIN must be passed as an env variable") s).
Proof.
  unfold parse_environment, os_getenv_or, os_getenv, fail_with_error_message,
    sys_exit, logging_error.
  msimpl.
  destruct (truthy_opt (environ s !! "DOMAIN")); [|done]. simpl.
  destruct (truthy_opt (environ s !! "EMAIL")); done.
Qed.

Lemma truthy_opt_set_nonempty (env : gmap string string) (key : string) :
  truthy_opt (env !! key) = true ↔ set_nonempty env key.
Proof.
  unfold set_nonempty, truthy_opt. destruct (env !! key) as [v|]; split.
  - intros H. exists v. split; [done|]. intros ->. discriminate.
  - intros (v' & [= <-] & Hne). apply negb_true_iff.
    by apply String.eqb_neq.
  - discriminate.
  - by intros (v' & ? & _).
Qed.

Lemma truthy_getenv_or (env : gmap string string) (key : string) :
  truthy (match env !! key with
          | Some x => PyStr x
          | None => PyBool false
          end) = truthy_opt (env !! key).
Proof. by destruct (env !! key). Qed.

(** C10. In the configuration read from the environment, the staging flag
    is in the dictionary of the issuer exactly when [STAGING] is set to a
    string other than the empty one, whatever the string (["0"] and
    ["false"] included); the verbose flags are there, and the renew
    command carries [--force-renewal], exactly when [DEBUG] is. *)
Theorem optional_settings_enabled_by_any_text (s s' : state)
  (config : Config.t) :
  parse_environment s = Ret config s' →
  (Certbot.args (Certbot.init config) !! "--staging" = Some None
     ↔ set_nonempty (environ s) "STAGING")
  ∧ (Certbot.args (Certbot.init config) !! "-vvv" = Some (Some "--text")
     ↔ set_nonempty (environ s) "DEBUG")
  ∧ ("--force-renewal" ∈ renew_cmd config
     ↔ set_nonempty (environ s) "DEBUG")
  ∧ (Certbot.args (Certbot.init config) !! "--staging" = None
     ↔ ¬ set_nonempty (environ s) "STAGING")
  ∧ (Certbot.args (Certbot.init config) !! "-vvv" = None
     ↔ ¬ set_nonempty (environ s) "DEBUG").
Proof.
  rewrite parse_environment_spec.
  destruct (truthy_opt (environ s !! "DOMAIN")); [|discriminate].
  destruct (truthy_opt (environ s !! "EMAIL")); [|discriminate].
  intros [= <- <-].
  rewrite <- !truthy_opt_set_nonempty.
  rewrite init_closed. unfold renew_cmd, config_of_env.
  cbn [Config.staging Config.debug Config.server Config.domain Config.email
       Certbot.args].
  rewrite !truthy_getenv_or.
  destruct (truthy_opt (environ s !! "STAGING")),
           (truthy_opt (environ s !! "DEBUG")),
           (truthy_opt (environ s !! "SERVER"));
    cbn [id];
    repeat split; intros H; try done;
    try (by vm_compute in H); try (by vm_compute);
    try (by repeat (apply elem_of_cons in H as [H|H]; [done|]);
            apply elem_of_nil in H);
    by apply elem_of_app; right; apply list_elem_of_singleton.
Qed.

(** ** Schedules *)

Lemma run_app (a b : list actor) (s : state) :
  run (a ++ b) s = match run a s with
                   | Some s' => run b s'
                   | None => None
                   end.
Proof.
  revert s. induction a as [|x a IH]; intros s; simpl; [done|].
  destruct (step x s); [apply IH|done].
Qed.

(** A property that holds at the start and is kept by every step holds in
    every state a schedule leads to. *)
Lemma run_invariant (P : state → Prop) (s0 : state) :
  P s0 →
  (∀ a s s', P s → step a s = Some s' → P s') →
  ∀ sched s, run sched s0 = Some s → P s.
Proof.
  intros H0 Hstep sched. revert s0 H0.
  induction sched as [|a sched IH]; intros s0 H0 s Hrun; simpl in Hrun.
  - by injection Hrun as <-.
  - destruct (step a s0) as [s1|] eqn:E; [|done]. eauto.
Qed.


(** ** Closed forms of the compound statements *)

Lemma bind_eq {A B : Type} (m : M A) (k : A → M B) (s : state) :
  (m ≫= k) s = match m s with
               | Ret a s' => k a s'
               | Exc e s' => Exc e s'
               | Block => Block
               end.
Proof. reflexivity. Qed.

Lemma TLS_CONFIG_format_some (d a b c inc : string) :
  is_Some (str_format TLS_CONFIG [d; a; b; c; inc]).
Proof. vm_compute. eauto. Qed.

Lemma create_nginx_config_file_spec (D : string) (s : state) :
  create_nginx_config_file D s
  = let s0 := if bool_decide (is_Some (fs s !! "/etc/nginx/conf.d/custom/"))
              then emit (EvLog INFO "Including custom configuration") s
              else s in
    match fs s !! served_config_path D with
    | Some Dir => Exc IOError s0
    | _ =>
      Ret tt
        (emit (EvLog INFO ("virtual host created for " +:+ D +:+ ""))
           (set_fs (<[served_config_path D
                      := File (rendered_config D (custom_include s))]> (fs s))
              s0))
    end.
Proof.
  unfold create_nginx_config_file, rendered_config, custom_include.
  fold (served_config_path D).
  rewrite bind_eq, os_path_exists_spec.
  destruct (bool_decide _);
    cbv beta iota delta
      [mbind M_bind mret M_ret logging_info modify open_w py_format];
    cbn [fs set_fs emit set_trace];
    (destruct (fs s !! _) as [[c|]|]; [|done|]);
    match goal with
    | |- context [str_format TLS_CONFIG [?d; ?a; ?b; ?c; ?i]] =>
      destruct (TLS_CONFIG_format_some d a b c i) as [text Htext];
      rewrite Htext
    end;
    cbv beta iota delta [fd_write default];
    cbn [fs set_fs emit set_trace];
    rewrite lookup_insert_eq, format_virtual_host;
    cbn [fs set_fs emit set_trace];
    by rewrite insert_insert_eq.
Qed.

Lemma remove_proxy_config_total (s : state) :
  Nginx.remove_proxy_config s
  = match fs s !! Nginx.config_path with
    | Some (File _) => Ret tt (set_fs (delete Nginx.config_path (fs s)) s)
    | Some Dir => Exc OSError s
    | None => Ret tt s
    end.
Proof.
  unfold Nginx.remove_proxy_config. rewrite bind_eq, os_path_exists_spec.
  unfold os_remove, mret, M_ret.
  destruct (fs s !! Nginx.config_path) as [[c|]|] eqn:E; simpl;
    by rewrite ?E.
Qed.

Lemma write_proxy_config_total (s : state) :
  Nginx.write_proxy_config s
  = match fs s !! Nginx.config_path with
    | Some Dir => Exc IOError s
    | _ => Ret tt (set_fs (<[Nginx.config_path := File PROXY_CONFIG]> (fs s)) s)
    end.
Proof. apply open_write_spec. Qed.

Lemma Process_start_nginx (s : state) :
  Process_start NGINX_CMD s
  = match world s (commands_run (trace s)) NGINX_CMD with
    | Exited _ _ =>
      Ret Alive (emit (EvLog INFO "started nginx (pid)")
                   (emit (EvPopen NGINX_CMD) s))
    | NotLaunched => Exc OSError (emit (EvPopen NGINX_CMD) s)
    end.
Proof.
  unfold Process_start, subprocess_Popen, run_external. msimpl.
  by destruct (world s _ _).
Qed.


(** ** Case analysis of a step *)

#[local] Opaque create_nginx_config_file parse_environment certs_exist
  Certbot_run Nginx.write_proxy_config Nginx.remove_proxy_config
  Process_start CalledProcessError_str NGINX_CMD.

Ltac unfold_statements :=
  unfold Lock_acquire, Lock_release, atexit_register, start_renewer,
    start_obtain, logging_info, logging_error, time_sleep, Nginx.start,
    Nginx.reload, subprocess_check_output, run_external, held, set_held,
    with_str in *;
  repeat (unfold mbind, mret, M_bind, M_ret, gets, modify, raise, block,
          try_except in *; cbn beta iota zeta in * ).

Ltac closed_forms :=
  rewrite ?parse_environment_spec, ?certs_exist_spec, ?Certbot_run_spec,
    ?create_nginx_config_file_spec, ?remove_proxy_config_total,
    ?write_proxy_config_total, ?Process_start_nginx in *;
  cbn beta iota zeta in *.

(** All the ways an actor can move from [s] to [s']: one goal per control
    point and outcome, with [s'] replaced by its expression in [s]. *)
Ltac step_cases H :=
  unfold step in H;
  repeat (case_match; try discriminate);
  unfold main, run_renewer, obtain_cert in *;
  repeat (case_match; try discriminate);
  unfold_statements;
  repeat (first [ case_match; try discriminate
                | progress closed_forms
                | progress unfold_statements ]);
  simplify_eq.

Lemma step_environ (a : actor) (s s' : state) :
  step a s = Some s' → environ s' = environ s ∧ world s' = world s.
Proof. intros H. step_cases H; done. Qed.


(** ** The gates *)

Ltac simpl_state :=
  cbn [trace main_t renewer_t obtain_t start_held done_held handle fs
       set_main_t set_renewer_t set_obtain_t set_fs set_trace set_handle
       set_start_held set_done_held emit existsb preceded] in *.

Ltac use_status :=
  repeat match goal with
         | Heq : main_t _ = _ |- _ => rewrite Heq in *; clear Heq
         | Heq : renewer_t _ = _ |- _ => rewrite Heq in *; clear Heq
         | Heq : obtain_t _ = _ |- _ => rewrite Heq in *; clear Heq
         | Heq : start_held _ = _ |- _ => rewrite Heq in *; clear Heq
         | Heq : done_held _ = _ |- _ => rewrite Heq in *; clear Heq
         end.

Ltac split_stages :=
  repeat match goal with
         | |- context [stage_of_main (main_t ?s)] =>
           destruct (stage_of_main (main_t s))
         | |- context [stage_of_renewer (renewer_t ?s)] =>
           destruct (stage_of_renewer (renewer_t s))
         | |- context [stage_of_obtain (obtain_t ?s)] =>
           destruct (stage_of_obtain (obtain_t s))
         end.

Ltac bool_finish :=
  intros; destruct_and?;
  repeat match goal with
         | H : ?a = ?a → _ |- _ => specialize (H eq_refl)
         end;
  split_and?; intros; try done; try congruence; eauto;
  repeat match goal with
         | H : ?x = _ |- context [?x] => rewrite H
         end;
  try done; eauto.

Lemma gate_invariant_init (env : gmap string string)
  (w : nat → list string → cmd_result) (files : gmap string node) :
  gate_invariant (init env w files).
Proof. by repeat split. Qed.

Lemma gate_invariant_step (a : actor) (s s' : state) :
  gate_invariant s → step a s = Some s' → gate_invariant s'.
Proof.
  intros Hinv H. revert Hinv.
  step_cases H.
  all: unfold gate_invariant, renewer_facts, lock_facts, obtain_facts,
    order_facts, free_means_released.
  all: simpl_state; use_status; simpl.
  all: split_stages; simpl.
  all: bool_finish.
Qed.

Lemma preceded_only_after (p q : event → bool) (tr : list event) :
  preceded p q tr = true → only_after p q tr.
Proof.
  induction tr as [|x tr IH]; intros H newer e older Heq Hq.
  - by destruct newer.
  - simpl in H. apply andb_prop in H as [Hx Htr].
    destruct newer as [|y newer]; simpl in Heq; injection Heq as -> ->.
    + rewrite Hq in Hx. apply existsb_exists in Hx as (e' & Hin & Hp).
      exists e'. split; [by apply list_elem_of_In|done].
    + by apply (IH Htr newer e older).
Qed.

(** C3. Along every schedule of the three threads and the server process,
    each renewal attempt comes after the renewer took the start lock,
    which it took after the done lock; the done lock could only be taken
    after it had been released (issuance settled), the start lock only
    after [main] had released it in [Nginx.start] (server ready).  So both
    gates were opened before the first attempt.  While a gate is closed
    the renewer cannot move. *)
Theorem renewal_waits_for_both_gates (env : gmap string string)
  (w : nat → list string → cmd_result) (files : gmap string node)
  (sched : list actor) (s : state) :
  run sched (init env w files) = Some s →
  only_after (is_release done_lock) is_renew_attempt (trace s)
  ∧ only_after (is_release_by MainThread start_lock) is_renew_attempt
      (trace s)
  ∧ only_after (is_acquire_by RenewerThread start_lock) is_renew_attempt
      (trace s)
  ∧ only_after (is_acquire_by RenewerThread done_lock)
      (is_acquire_by RenewerThread start_lock) (trace s)
  ∧ only_after (is_release done_lock)
      (is_acquire_by RenewerThread done_lock) (trace s)
  ∧ only_after (is_release_by MainThread start_lock)
      (is_acquire_by RenewerThread start_lock) (trace s)
  ∧ (∀ config, renewer_t s = At (R310 config) → done_held s = true →
       step RenewerThread s = None)
  ∧ (∀ config, renewer_t s = At (R311 config) → start_held s = true →
       step RenewerThread s = None).
Proof.
  intros Hrun.
  assert (Hinv : gate_invariant s).
  { exact (run_invariant gate_invariant (init env w files)
             (gate_invariant_init env w files) gate_invariant_step
             sched s Hrun). }
  destruct Hinv as (_ & _ & _ & H1 & H2 & H3 & H4 & H5 & H6).
  split_and!; try (by apply preceded_only_after).
  - intros config Hpc Hheld. unfold step. rewrite Hpc.
    unfold run_renewer, Lock_acquire. rewrite bind_eq. simpl. by rewrite Hheld.
  - intros config Hpc Hheld. unfold step. rewrite Hpc.
    unfold run_renewer, Lock_acquire. rewrite bind_eq. simpl. by rewrite Hheld.
Qed.

(** ** Missing required settings *)

Lemma not_set_nonempty (env : gmap string string) (key : string) :
  ¬ set_nonempty env key → truthy_opt (env !! key) = false.
Proof.
  intros H. destruct (truthy_opt (env !! key)) eqn:E; [|done].
  by apply truthy_opt_set_nonempty in E.
Qed.

(** With a required setting missing, a step is a step of [main] towards
    its exit, and it starts nothing. *)
Lemma startup_step (env : gmap string string) (a : actor) (s s' : state) :
  truthy_opt (env !! "DOMAIN") && truthy_opt (env !! "EMAIL") = false →
  environ s = env → in_startup (main_t s) → no_background s →
  step a s = Some s' →
  a = MainThread
  ∧ startup_rank (main_t s') = S (startup_rank (main_t s))
  ∧ environ s' = env ∧ in_startup (main_t s') ∧ no_background s'.
Proof.
  intros Hmiss Henv Hin (Hr & Ho & Hh & Hb) H.
  revert Hmiss Henv Hin Hr Ho Hh Hb.
  step_cases H; intros Hmiss Henv Hin Hr Ho Hh Hb;
    unfold no_background; simpl_state; try congruence;
    subst; simpl in *;
    repeat match goal with
           | Heq : main_t _ = _ |- _ => rewrite Heq in *
           end; simpl in *; try done.
  all: try (split_and!; (done || lia)).
  all: try (by repeat match goal with
           | Heq : truthy_opt _ = true |- _ => rewrite Heq in *
           end).
Qed.

Lemma startup_run (env : gmap string string) (sched : list actor)
  (s s' : state) :
  truthy_opt (env !! "DOMAIN") && truthy_opt (env !! "EMAIL") = false →
  environ s = env → in_startup (main_t s) → no_background s →
  run sched s = Some s' →
  sched = repeat MainThread (List.length sched)
  ∧ (startup_rank (main_t s') = startup_rank (main_t s) + List.length sched)%nat
  ∧ in_startup (main_t s') ∧ no_background s'.
Proof.
  intros Hmiss. revert s.
  induction sched as [|a sched IH]; intros s Henv Hin Hbg Hrun;
    simpl in Hrun.
  - injection Hrun as <-. simpl. split_and!; (done || lia).
  - destruct (step a s) as [s1|] eqn:Hstep; [|done].
    destruct (startup_step env a s s1 Hmiss Henv Hin Hbg Hstep)
      as (-> & Hrank & Henv1 & Hin1 & Hbg1).
    destruct (IH s1 Henv1 Hin1 Hbg1 Hrun) as (Hs & Hr & Hin' & Hbg').
    simpl. split_and!; try done; [by f_equal|lia].
Qed.

Lemma startup_rank_le (t : thread main_pc) : (startup_rank t ≤ 4)%nat.
Proof. destruct t as [|[]|]; simpl; lia. Qed.

(** C6. With [DOMAIN] or [EMAIL] absent or empty: four steps of [main]
    (the two lock acquisitions, the exit hook, the reading of the
    environment) end the process with status 1; and whatever the schedule,
    only [main] ever moves, at most four times, no thread is started, no
    server handle exists and no external program is launched. *)
Theorem missing_setting_exits_before_any_activity
  (env : gmap string string) (w : nat → list string → cmd_result)
  (files : gmap string node) :
  ¬ set_nonempty env "DOMAIN" ∨ ¬ set_nonempty env "EMAIL" →
  (∃ s, run (repeat MainThread 4) (init env w files) = Some s
        ∧ exit_status s = Some 1
        ∧ ∀ a, step a s = None)
  ∧ ∀ sched s,
      run sched (init env w files) = Some s →
      sched = repeat MainThread (List.length sched)
      ∧ (List.length sched ≤ 4)%nat
      ∧ no_background s.
Proof.
  intros Hmiss.
  assert (Hm : truthy_opt (env !! "DOMAIN") && truthy_opt (env !! "EMAIL")
               = false).
  { destruct Hmiss as [H|H]; apply not_set_nonempty in H; rewrite H;
      [done|apply andb_false_r]. }
  assert (Hall : ∀ sched s,
             run sched (init env w files) = Some s →
             sched = repeat MainThread (List.length sched)
             ∧ (startup_rank (main_t s) = List.length sched)%nat
             ∧ in_startup (main_t s) ∧ no_background s).
  { intros sched s Hrun.
    by apply (startup_run env sched (init env w files) s Hm). }
  split.
  - destruct (run (repeat MainThread 4) (init env w files)) as [s|] eqn:Hrun.
    + exists s. destruct (Hall _ _ Hrun) as (_ & Hrank & Hin & Hbg).
      destruct Hbg as (Hr & Ho & Hh & Hb).
      simpl in Hrank.
      destruct (main_t s) as [|pc|[[[|[]|]| | | | | | |]|]] eqn:Hmain;
        try done;
        try (destruct pc; try done; simpl in Hrank; lia).
      split; [done|]. split.
      * unfold exit_status. by rewrite Hmain, Hr, Ho.
      * intros a. unfold step. rewrite Hmain, Hr, Ho, Hh. by destruct a.
    + exfalso. revert Hrun. cbn [repeat run].
      unfold step. cbn [main_t init]. unfold main.
      unfold_statements. simpl.
      rewrite parse_environment_spec. simpl.
      destruct (truthy_opt (env !! "DOMAIN")); simpl in Hm;
        [rewrite Hm|]; done.
  - intros sched s Hrun. destruct (Hall _ _ Hrun) as (Hs & Hrank & Hin & Hbg).
    split_and!; try done. rewrite <- Hrank. apply startup_rank_le.
Qed.

(** ** The renewal loop *)

Lemma renew_cycle (config : Config.t) (s : state) :
  renewer_t s = At (R314 config) →
  world s (commands_run (trace s)) (renew_cmd config) ≠ NotLaunched →
  ∃ s2, run [RenewerThread; RenewerThread] s = Some s2
        ∧ renewer_t s2 = At (R314 config)
        ∧ world s2 = world s
        ∧ count_events is_renew_attempt (trace s2)
          = S (count_events is_renew_attempt (trace s))
        ∧ count_events is_sleep (trace s2)
          = S (count_events is_sleep (trace s)).
Proof.
  intros Hpc Hworld. cbn [run]. unfold step at 1. rewrite Hpc.
  unfold run_renewer. unfold_statements.
  destruct (world s _ _) as [code out|]; [|done].
  destruct (Z.eqb code 0), (truthy (Config.debug config));
    eexists; (split; [reflexivity|]); by repeat split.
Qed.

Lemma failed_cycle (config : Config.t) (s : state) (code : Z)
  (out : string) :
  renewer_t s = At (R314 config) →
  world s (commands_run (trace s)) (renew_cmd config) = Exited code out →
  code ≠ 0 →
  run [RenewerThread; RenewerThread] s
  = Some (after_failed_cycle config code s).
Proof.
  intros Hpc Hworld Hcode. cbn [run]. unfold step at 1. rewrite Hpc.
  unfold run_renewer. unfold_statements. rewrite Hworld.
  apply Z.eqb_neq in Hcode. by rewrite Hcode.
Qed.

Lemma renew_cycles (config : Config.t) (n : nat) (s : state) :
  renewer_t s = At (R314 config) →
  (∀ k cmd, world s k cmd ≠ NotLaunched) →
  ∃ s', run (repeat RenewerThread (2 * n)) s = Some s'
        ∧ renewer_t s' = At (R314 config)
        ∧ count_events is_renew_attempt (trace s')
          = (count_events is_renew_attempt (trace s) + n)%nat
        ∧ count_events is_sleep (trace s')
          = (count_events is_sleep (trace s) + n)%nat.
Proof.
  revert s. induction n as [|n IH]; intros s Hpc Hworld.
  - exists s. simpl. split_and!; (done || lia).
  - destruct (renew_cycle config s Hpc (Hworld _ _))
      as (s2 & Hrun2 & Hpc2 & Hw2 & Hr2 & Hs2).
    destruct (IH s2 Hpc2) as (s' & Hrun & Hpc' & Hr' & Hs').
    { intros k cmd. rewrite Hw2. apply Hworld. }
    exists s'.
    replace (2 * S n)%nat with (2 + 2 * n)%nat by lia.
    rewrite repeat_app, run_app.
    change (repeat RenewerThread 2) with [RenewerThread; RenewerThread].
    rewrite Hrun2. split_and!; (done || lia).
Qed.

(** C9. From the head of the loop of [run_renewer], provided the renew
    command can be launched at all: a cycle whose command exits with a
    non-zero status logs the error, sleeps 3600 seconds and is back at the
    head of the loop; and for every [n] the loop completes [n] more cycles,
    each with one renewal attempt and one sleep of an hour, whatever the
    exit statuses are. *)
Theorem renewal_loop_survives_failures (config : Config.t) (s : state) :
  renewer_t s = At (R314 config) →
  (∀ k cmd, world s k cmd ≠ NotLaunched) →
  (∀ code out,
     world s (commands_run (trace s)) (renew_cmd config) = Exited code out →
     code ≠ 0 →
     run [RenewerThread; RenewerThread] s
     = Some (after_failed_cycle config code s))
  ∧ ∀ n : nat,
      ∃ s', run (repeat RenewerThread (2 * n)) s = Some s'
            ∧ renewer_t s' = At (R314 config)
            ∧ count_events is_renew_attempt (trace s')
              = (count_events is_renew_attempt (trace s) + n)%nat
            ∧ count_events is_sleep (trace s')
              = (count_events is_sleep (trace s) + n)%nat.
Proof.
  intros Hpc Hworld. split.
  - intros code out. by apply failed_cycle.
  - intros n. by apply renew_cycles.
Qed.

(** ** The two configuration artifacts *)

Lemma init_domain (config : Config.t) :
  Certbot.domain (Certbot.init config) = Config.domain config.
Proof. by rewrite init_closed. Qed.

Ltac fs_lookups :=
  repeat first
    [ rewrite lookup_insert_eq in *
    | rewrite lookup_delete_eq in *
    | rewrite lookup_insert_ne in * by congruence
    | rewrite lookup_delete_ne in * by congruence ].

Ltac excl_piece :=
  first
    [ done
    | congruence
    | by intros ? [= <-]
    | by intros ? [= <-]; congruence
    | by fs_lookups
    | by fs_lookups; congruence
    | by eauto ].

Ltac excl_finish :=
  destruct_and?; destruct_or?; destruct_and?;
  repeat match goal with
         | Himp : ?a = ?a → _ |- _ => specialize (Himp eq_refl)
         end;
  first
    [ by split_and!; excl_piece
    | by split_and!; try excl_piece; left; split_and?; excl_piece
    | by split_and!; try excl_piece; right; split_and?; excl_piece
    | by split_and!; try excl_piece; right; left; split_and?; excl_piece
    | by split_and!; try excl_piece; right; right; split_and?; excl_piece ].

#[local] Opaque Certbot.init.

Lemma exclusive_invariant_step (env : gmap string string) (D : string)
  (a : actor) (s s' : state) :
  env !! "DOMAIN" = Some D →
  served_config_path D ≠ Nginx.config_path →
  a ≠ NginxProcess →
  exclusive_invariant env D s → step a s = Some s' →
  exclusive_invariant env D s'.
Proof.
  intros Hdom Hne Ha Hinv H. revert Hinv.
  step_cases H; try done.
  all: unfold exclusive_invariant, switch_facts.
  all: simpl_state; use_status; simpl.
  all: intros (Henv & Hgone & Hmd & Hod & Hfs).
  all: try (specialize (Hmd _ eq_refl)).
  all: try (specialize (Hod _ eq_refl)).
  all: try rewrite init_domain in *.
  all: simplify_eq.
  all: repeat match goal with
         | |- context [switch_stage_of (obtain_t ?s)] =>
           destruct (switch_stage_of (obtain_t s))
         | |- context [config_stage_of (main_t ?s)] =>
           destruct (config_stage_of (main_t s))
         | Hx : context [switch_stage_of (obtain_t ?s)] |- _ =>
           destruct (switch_stage_of (obtain_t s))
         | Hx : context [config_stage_of (main_t ?s)] |- _ =>
           destruct (config_stage_of (main_t s))
         end.
  all: excl_finish.
Qed.

Lemma exclusive_invariant_run (env : gmap string string) (D : string)
  (sched : list actor) (s s' : state) :
  env !! "DOMAIN" = Some D →
  served_config_path D ≠ Nginx.config_path →
  server_keeps_running sched = true →
  exclusive_invariant env D s → run sched s = Some s' →
  exclusive_invariant env D s'.
Proof.
  intros Hdom Hne. revert s.
  induction sched as [|a sched IH]; intros s Hkeep Hinv Hrun;
    simpl in Hrun.
  - by injection Hrun as <-.
  - destruct (step a s) as [s1|] eqn:Hstep; [|done].
    simpl in Hkeep. apply andb_prop in Hkeep as [Ha Hkeep].
    apply (IH s1 Hkeep); [|done].
    apply (exclusive_invariant_step env D a s s1); try done.
    by intros ->.
Qed.

Lemma exclusive_invariant_excludes (env : gmap string string) (D : string)
  (s : state) :
  exclusive_invariant env D s →
  fs s !! Nginx.config_path = None ∨ fs s !! served_config_path D = None.
Proof.
  intros (_ & _ & _ & _ & H). unfold switch_facts in H.
  destruct (config_stage_of (main_t s)),
    (switch_stage_of (obtain_t s)); naive_solver.
Qed.


(** ** A failed first issuance *)

Lemma stranded_step (a : actor) (s s' : state) :
  stranded s → step a s = Some s' → stranded s'.
Proof.
  intros Hs H. revert Hs.
  step_cases H; unfold stranded; simpl_state; use_status; simpl;
    intros ([e He] & Hheld & Hh & Hr & Hm); try done;
    try (split_and!; by eauto).
  match goal with
  | Hnone : handle _ = None |- _ => rewrite Hnone in Hh
  end.
  by destruct Hh.
Qed.

Lemma stranded_no_exit (s : state) : stranded s → exit_status s = None.
Proof.
  intros (_ & _ & _ & Hr & _). unfold exit_status.
  destruct (main_t s); try done.
  by destruct (renewer_t s) as [|[]|].
Qed.

Lemma stranded_forever (sched : list actor) (s s' : state) :
  stranded s → run sched s = Some s' → exit_status s' = None.
Proof.
  intros Hs Hrun. apply stranded_no_exit.
  exact (run_invariant stranded s Hs stranded_step sched s' Hrun).
Qed.


(** ** Evaluations *)

#[local] Transparent create_nginx_config_file parse_environment certs_exist
  Certbot_run Nginx.write_proxy_config Nginx.remove_proxy_config
  Process_start CalledProcessError_str NGINX_CMD Certbot.init.

(** C5, as stated, fails: for [example.com] no single path receives both
    variants.  The bootstrap variant goes to the fixed
    [reverse_proxy.conf], the served one to [example.com.conf]. *)
Lemma no_single_config_path : ¬ single_config_path "example.com".
Proof.
  intros [p Hp].
  pose (s0 := init example_env world_ok ∅).
  destruct (Hp s0 _ _ (write_proxy_config_total s0)
              (create_nginx_config_file_spec "example.com" s0))
    as (_ & _ & Hq).
  destruct (decide (Nginx.config_path = p)) as [<-|Hn].
  - destruct (Hq (served_config_path "example.com")) as [_ Hc];
      [by vm_compute|].
    cbn in Hc. by rewrite lookup_insert_eq in Hc.
  - destruct (Hq Nginx.config_path Hn) as [Hc _].
    cbn in Hc. by rewrite lookup_insert_eq in Hc.
Qed.

(** C5, amended.  The bootstrap variant is written at the fixed path
    [Nginx.config_path] and nowhere else, the served variant of domain [D]
    at [served_config_path D] and nowhere else.  When the two paths differ,
    neither artifact exists at the start and the server process does not
    exit, then in every state of every schedule at most one of the two
    artifacts exists. *)
Theorem config_variants_exclusive (env : gmap string string)
  (w : nat → list string → cmd_result) (files : gmap string node)
  (D : string) (sched : list actor) (s : state) :
  env !! "DOMAIN" = Some D →
  served_config_path D ≠ Nginx.config_path →
  files !! Nginx.config_path = None →
  files !! served_config_path D = None →
  server_keeps_running sched = true →
  run sched (init env w files) = Some s →
  (fs s !! Nginx.config_path = None ∨ fs s !! served_config_path D = None)
  ∧ (∀ s0 s1,
       Nginx.write_proxy_config s0 = Ret tt s1 →
       fs s1 = <[Nginx.config_path := File PROXY_CONFIG]> (fs s0))
  ∧ (∀ s0 s1,
       create_nginx_config_file D s0 = Ret tt s1 →
       fs s1 = <[served_config_path D
                 := File (rendered_config D (custom_include s0))]> (fs s0)).
Proof.
  intros Hdom Hne Hb Hs Hkeep Hrun. split_and!.
  - apply (exclusive_invariant_excludes env D).
    apply (exclusive_invariant_run env D sched (init env w files));
      done.
  - intros s0 s1. rewrite write_proxy_config_total.
    destruct (fs s0 !! Nginx.config_path) as [[c|]|]; try done;
      by intros [= <-].
  - intros s0 s1. rewrite create_nginx_config_file_spec. cbv zeta.
    destruct (fs s0 !! served_config_path D) as [[c|]|]; try done;
      intros [= <-]; by destruct (bool_decide _).
Qed.

(** C2 (the code departs from the claim).  Domain and e-mail are set, no
    certificate exists, the server starts and the issuer exits with status
    1.  After [main] has reached its wait on the server and [obtain_cert]
    has run the issuer: the error record names the exact command that was
    run, and [SystemExit(1)] has ended the issuance thread only.  The
    process has no exit status, no thread can move, and along every
    continuation, the server stopping included, it never gets one. *)
Theorem failed_issuance_does_not_exit :
  ∃ s,
    run (repeat MainThread 10 ++ repeat ObtainThread 3)
        (init example_env world_issuer_fails ∅) = Some s
    ∧ obtain_t s = Ended (Some (SystemExit 1))
    ∧ match trace s with
      | EvLog ERROR msg :: EvCheckCall cmd :: _ =>
        msg = "Command failed: " +:+ str_join " " cmd
      | _ => False
      end
    ∧ exit_status s = None
    ∧ (∀ a, a ≠ NginxProcess → step a s = None)
    ∧ ∀ sched s', run sched s = Some s' → exit_status s' = None.
Proof.
  destruct (run (repeat MainThread 10 ++ repeat ObtainThread 3)
                (init example_env world_issuer_fails ∅)) as [s|] eqn:Hrun;
    [|by vm_compute in Hrun].
  exists s. split; [done|].
  vm_compute in Hrun. injection Hrun as <-.
  split; [reflexivity|]. split; [reflexivity|]. split; [reflexivity|].
  split.
  - intros [] Ha; try done; reflexivity.
  - intros sched s'. apply stranded_forever.
    unfold stranded. simpl. split_and!; eauto.
Qed.

(** ** Instances *)

Lemma served_config_references_three_paths_witness :
  match create_nginx_config_file "example.com"
          (init example_env world_ok ∅) with
  | Ret _ s' =>
    fs s' = <["/etc/nginx/conf.d/" +:+ "example.com" +:+ ".conf"
              := File (served_config_text "example.com" "")]> ∅
  | _ => False
  end.
Proof.
  destruct (create_nginx_config_file "example.com"
              (init example_env world_ok ∅)) as [[] s'|e s'|] eqn:H.
  - exact (served_config_references_three_paths "example.com"
             (init example_env world_ok ∅) s' eq_refl H).
  - by vm_compute in H.
  - by vm_compute in H.
Defined.

Lemma bootstrap_remove_idempotent_write_overwrites_witness :
  ∃ s1 s2,
    Nginx.remove_proxy_config (init example_env world_ok ∅) = Ret tt s1
    ∧ fs s1 !! Nginx.config_path = None
    ∧ Nginx.remove_proxy_config s1 = Ret tt s1
    ∧ (fs (init example_env world_ok ∅) !! Nginx.config_path = None →
       s1 = init example_env world_ok ∅)
    ∧ Nginx.write_proxy_config (init example_env world_ok ∅) = Ret tt s2
    ∧ fs s2 = <[Nginx.config_path := File PROXY_CONFIG]> ∅
    ∧ Nginx.write_proxy_config s2 = Ret tt s2.
Proof.
  apply (bootstrap_remove_idempotent_write_overwrites
           (init example_env world_ok ∅)).
  by vm_compute.
Defined.

Lemma optional_settings_enabled_by_any_text_witness :
  Certbot.args (Certbot.init (config_of_env env_switches)) !! "--staging"
  = Some None
  ∧ Certbot.args (Certbot.init (config_of_env env_switches)) !! "-vvv"
    = Some (Some "--text")
  ∧ "--force-renewal" ∈ renew_cmd (config_of_env env_switches).
Proof.
  destruct (optional_settings_enabled_by_any_text
              (init env_switches world_ok ∅) (init env_switches world_ok ∅)
              (config_of_env env_switches) eq_refl)
    as (Hs & Hv & Hf & _ & _).
  split_and!.
  - apply Hs. exists "0". by vm_compute.
  - apply Hv. exists "false". by vm_compute.
  - apply Hf. exists "false". by vm_compute.
Defined.

Lemma renewal_waits_for_both_gates_witness :
  match run issuance_schedule (init example_env world_ok ∅) with
  | Some s =>
    only_after (is_release done_lock) is_renew_attempt (trace s)
    ∧ only_after (is_release_by MainThread start_lock) is_renew_attempt
        (trace s)
  | None => False
  end.
Proof.
  destruct (run issuance_schedule (init example_env world_ok ∅))
    as [s|] eqn:Hrun.
  - destruct (renewal_waits_for_both_gates example_env world_ok ∅
                issuance_schedule s Hrun) as (H1 & H2 & _).
    by split.
  - by vm_compute in Hrun.
Defined.

Lemma missing_setting_exits_before_any_activity_witness :
  ∃ s, run (repeat MainThread 4) (init ∅ world_ok ∅) = Some s
       ∧ exit_status s = Some 1
       ∧ ∀ a, step a s = None.
Proof.
  apply (missing_setting_exits_before_any_activity ∅ world_ok ∅).
  left. intros (v & Hv & _). by vm_compute in Hv.
Defined.

Lemma renewal_loop_survives_failures_witness :
  run [RenewerThread; RenewerThread] at_loop_head
  = Some (after_failed_cycle (config_of_env example_env) 1 at_loop_head)
  ∧ ∃ s', run (repeat RenewerThread (2 * 3)) at_loop_head = Some s'
          ∧ renewer_t s' = At (R314 (config_of_env example_env))
          ∧ count_events is_renew_attempt (trace s') = 3%nat
          ∧ count_events is_sleep (trace s') = 3%nat.
Proof.
  destruct (renewal_loop_survives_failures (config_of_env example_env)
              at_loop_head eq_refl) as [Hfail Hloop].
  { intros k cmd. by vm_compute. }
  split.
  - apply (Hfail 1 ""); [reflexivity|by vm_compute].
  - exact (Hloop 3%nat).
Defined.

Lemma config_variants_exclusive_witness :
  match run issuance_schedule (init example_env world_ok ∅) with
  | Some s =>
    fs s !! Nginx.config_path = None
    ∨ fs s !! served_config_path "example.com" = None
  | None => False
  end.
Proof.
  destruct (run issuance_schedule (init example_env world_ok ∅))
    as [s|] eqn:Hrun.
  - apply (config_variants_exclusive example_env world_ok ∅ "example.com"
             issuance_schedule s); try reflexivity; [by vm_compute|done].
  - by vm_compute in Hrun.
Defined.

(** * Further properties *)

#[local] Opaque create_nginx_config_file parse_environment certs_exist
  Certbot_run Nginx.write_proxy_config Nginx.remove_proxy_config
  Process_start CalledProcessError_str NGINX_CMD.

(** ** Invariants that lean on the gates *)

Lemma gate_invariant_run (env : gmap string string)
  (w : nat → list string → cmd_result) (files : gmap string node)
  (sched : list actor) (s : state) :
  run sched (init env w files) = Some s → gate_invariant s.
Proof.
  exact (run_invariant gate_invariant (init env w files)
           (gate_invariant_init env w files) gate_invariant_step sched s).
Qed.

Lemma gate_spawn_fresh (s : state) : gate_invariant s → spawn_fresh s.
Proof.
  intros (_ & HL & _ & _). unfold lock_facts in HL. split; intros c Hm;
    rewrite Hm in HL; simpl in HL; destruct HL as (Hr & Ho & _).
  - by destruct (renewer_t s) as [|[]|].
  - by destruct (obtain_t s) as [|[]|].
Qed.

(** A property kept by every step from a state where the gate invariant
    holds is kept along every schedule. *)
Lemma run_invariant_gated (P : state → Prop) (env : gmap string string)
  (w : nat → list string → cmd_result) (files : gmap string node) :
  P (init env w files) →
  (∀ a s s', gate_invariant s → P s → step a s = Some s' → P s') →
  ∀ sched s, run sched (init env w files) = Some s → P s.
Proof.
  intros H0 Hstep sched s Hrun.
  cut (gate_invariant s ∧ P s); [by intros []|].
  refine (run_invariant (λ x, gate_invariant x ∧ P x) (init env w files)
            _ _ sched s Hrun).
  - split; [apply gate_invariant_init|done].
  - intros a x x' [Hg Hp] Hs. split; [by eapply gate_invariant_step|eauto].
Qed.

(** Brings in what [spawn_fresh] says at the control point of [main]. *)
Ltac use_fresh Hf :=
  try match goal with
      | Hm : main_t _ = At (M335 _) |- _ =>
        pose proof (proj1 Hf _ Hm)
      end;
  try match goal with
      | Hm : main_t _ = At (M344 _) |- _ =>
        pose proof (proj2 Hf _ Hm)
      end.

(** Like [bool_finish], with the implications of the context fed by the
    facts at hand. *)
Ltac chain_finish :=
  intros; destruct_and?;
  repeat match goal with
         | H : ?a = ?a → _ |- _ => specialize (H eq_refl)
         | H : ?P → _, Hp : ?P |- _ => specialize (H Hp)
         | H : ?a ≠ ?b → _ |- _ =>
           let Hp := fresh in
           assert (Hp : a ≠ b) by done; specialize (H Hp); clear Hp
         end;
  split_and?; intros; try done; try congruence; eauto;
  repeat match goal with
         | H : ?x = _ |- context [?x] => rewrite H
         end;
  try done; eauto.

(** ** The server and the issuer *)

Lemma gate_started_sees_release (s : state) :
  gate_invariant s → started_sees_release s.
Proof.
  intros (_ & HL & _ & _) Hstarted Hfree. unfold lock_facts in HL.
  destruct (stage_of_main (main_t s));
    unfold free_means_released in HL; destruct_and?; eauto; congruence.
Qed.

Lemma server_invariant_step (a : actor) (s s' : state) :
  gate_invariant s → server_invariant s → step a s = Some s' →
  server_invariant s'.
Proof.
  intros Hg Hinv H.
  pose proof (gate_spawn_fresh s Hg) as Hf.
  pose proof (gate_started_sees_release s Hg) as Hsee. clear Hg.
  revert Hinv Hsee.
  step_cases H; use_fresh Hf; clear Hf;
    unfold server_invariant, started_sees_release, has_handle;
    cbn [handle set_handle set_main_t set_renewer_t set_obtain_t set_fs
         set_trace set_start_held set_done_held emit].
  all: simpl_state; use_status;
    repeat match goal with
           | Heq : handle _ = _ |- _ => rewrite Heq in *; clear Heq
           end; simpl.
  all: repeat match goal with
           | |- context [launch_stage_of (main_t ?s)] =>
             destruct (launch_stage_of (main_t s))
           | |- context [issue_stage_of (obtain_t ?s)] =>
             destruct (issue_stage_of (obtain_t s))
           end; simpl.
  all: chain_finish.
Qed.

Lemma server_invariant_run (env : gmap string string)
  (w : nat → list string → cmd_result) (files : gmap string node)
  (sched : list actor) (s : state) :
  run sched (init env w files) = Some s → server_invariant s.
Proof.
  refine (run_invariant_gated server_invariant env w files _
            server_invariant_step sched s).
  unfold server_invariant. simpl. by split_and!.
Qed.

Lemma existsb_false_count (p : event → bool) (tr : list event) :
  existsb p tr = false → count_events p tr = 0%nat.
Proof.
  unfold count_events. induction tr as [|e tr IH]; simpl; [done|].
  destruct (p e); simpl; [done|]. exact IH.
Qed.

Lemma at_most_once_count (p : event → bool) (tr : list event) :
  at_most_once p tr = true → (count_events p tr ≤ 1)%nat.
Proof.
  induction tr as [|e tr IH]; simpl; [unfold count_events; simpl; lia|].
  intros [He Htr]%andb_prop. specialize (IH Htr).
  unfold count_events in *. simpl. destruct (p e); simpl; [|done].
  apply negb_true_iff, existsb_false_count in He.
  unfold count_events in He. lia.
Qed.

(** X1. Along every schedule the issuer is run only after the server has
    been launched: each [check_call] comes after [obtain_cert] took the
    start lock, which it can only take after [main] released it in
    [Nginx.start], which [main] does only after the [Popen] of the
    server. *)
Theorem issuance_waits_for_server (env : gmap string string)
  (w : nat → list string → cmd_result) (files : gmap string node)
  (sched : list actor) (s : state) :
  run sched (init env w files) = Some s →
  only_after is_popen is_check_call (trace s)
  ∧ only_after (is_acquire_by ObtainThread start_lock) is_check_call
      (trace s)
  ∧ only_after (is_release_by MainThread start_lock)
      (is_acquire_by ObtainThread start_lock) (trace s)
  ∧ only_after is_popen (is_release_by MainThread start_lock) (trace s).
Proof.
  intros Hrun.
  destruct (server_invariant_run env w files sched s Hrun)
    as (_ & _ & _ & _ & _ & _ & _ & _ & H1 & H2 & H3 & H4 & _).
  split_and!; by apply preceded_only_after.
Qed.

(** X2. Along every schedule the server is launched at most once (the
    second call of [Nginx.start] finds the handle), the issuer is run at
    most once (a failed issuance is not retried) and the server is
    signalled to reload at most once. *)
Theorem one_launch_one_issuance_one_reload (env : gmap string string)
  (w : nat → list string → cmd_result) (files : gmap string node)
  (sched : list actor) (s : state) :
  run sched (init env w files) = Some s →
  (count_events is_popen (trace s) ≤ 1)%nat
  ∧ (count_events is_check_call (trace s) ≤ 1)%nat
  ∧ (count_events is_sighup (trace s) ≤ 1)%nat.
Proof.
  intros Hrun.
  destruct (server_invariant_run env w files sched s Hrun)
    as (_ & _ & _ & _ & _ & H1 & H2 & H3 & _).
  split_and!; by apply at_most_once_count.
Qed.

(** X3. Along every schedule [Nginx.reload] finds a handle: the issuance
    thread never ends with the [AttributeError] of a signal sent to
    [None]; and each reload signal comes after the launch of the server
    and after the run of the issuer. *)
Theorem reload_finds_the_server (env : gmap string string)
  (w : nat → list string → cmd_result) (files : gmap string node)
  (sched : list actor) (s : state) :
  run sched (init env w files) = Some s →
  obtain_t s ≠ Ended (Some AttributeError)
  ∧ only_after is_popen is_sighup (trace s)
  ∧ only_after is_check_call is_sighup (trace s).
Proof.
  intros Hrun.
  destruct (server_invariant_run env w files sched s Hrun)
    as (_ & _ & _ & _ & He & _ & _ & _ & _ & _ & _ & _ & H5 & H6).
  split_and!; try (by apply preceded_only_after).
  intros Heq. by rewrite Heq in He.
Qed.

(** ** Start-up with a certificate in place *)

Lemma present_invariant_step (env : gmap string string)
  (files : gmap string node) (D : string) (a : actor) (s s' : state) :
  env !! "DOMAIN" = Some D →
  is_Some (files !! live_dir_path D FULL_CHAIN) →
  present_invariant env files D s → step a s = Some s' →
  present_invariant env files D s'.
Proof.
  intros Hdom Hcert Hinv H. revert Hinv.
  step_cases H; unfold present_invariant.
  all: simpl_state; use_status; simpl.
  all: intros (Henv & Hobt & Hcc & Hmd & Hfs & Hst); try done.
  all: try (specialize (Hmd _ eq_refl)).
  all: simplify_eq.
  all: try match goal with
           | Hc : negb (bool_decide _) = true |- _ =>
             apply negb_true_iff in Hc;
             by rewrite bool_decide_eq_true_2 in Hc
           end.
  all: repeat match goal with
           | |- context [present_stage_of (main_t ?s)] =>
             destruct (present_stage_of (main_t s))
           end.
  all: try (split_and!; try done; try congruence;
            try (intros ? [= <-]; congruence);
            try (intros p Hp; rewrite lookup_insert_ne by done; eauto);
            fail).
Qed.

(** X4. When the full chain of the configured domain is in place at
    start-up, then along every schedule [main] takes the second branch:
    the issuance thread is never started, the issuer is never run, and no
    file other than the served configuration of the domain is written (so
    the bootstrap configuration is not). *)
Theorem certificate_present_skips_issuance (env : gmap string string)
  (w : nat → list string → cmd_result) (files : gmap string node)
  (D : string) (sched : list actor) (s : state) :
  env !! "DOMAIN" = Some D →
  is_Some (files !! live_dir_path D FULL_CHAIN) →
  run sched (init env w files) = Some s →
  obtain_t s = NotStarted
  ∧ existsb is_check_call (trace s) = false
  ∧ ∀ p, p ≠ served_config_path D → fs s !! p = files !! p.
Proof.
  intros Hdom Hcert Hrun.
  assert (Hinv : present_invariant env files D s).
  { refine (run_invariant (present_invariant env files D) (init env w files)
              _ _ sched s Hrun).
    - unfold present_invariant. simpl. by split_and!.
    - intros a x x'. by apply present_invariant_step. }
  destruct Hinv as (_ & H1 & H2 & _ & H3 & _). done.
Qed.

(** ** Reading the environment *)

(** X5. A configuration that [parse_environment] returns is the image of
    the environment, its domain and its e-mail are strings other than the
    empty one, and reading it has changed nothing: no record logged, no
    file touched. *)
Theorem parsed_config_has_domain_and_email (s s' : state)
  (config : Config.t) :
  parse_environment s = Ret config s' →
  s' = s
  ∧ config = config_of_env (environ s)
  ∧ Config.server config = environ s !! "SERVER"
  ∧ ∃ d e, Config.domain config = Some d ∧ d ≠ ""
           ∧ Config.email config = Some e ∧ e ≠ "".
Proof.
  rewrite parse_environment_spec.
  destruct (truthy_opt (environ s !! "DOMAIN")) eqn:Hd; [|discriminate].
  destruct (truthy_opt (environ s !! "EMAIL")) eqn:He; [|discriminate].
  intros [= <- <-]. split_and!; try done.
  apply truthy_opt_set_nonempty in Hd as (d & Hd & Hdne).
  apply truthy_opt_set_nonempty in He as (e & He & Hene).
  exists d, e. by split_and!.
Qed.

(** X6. When [parse_environment] raises, it raises [SystemExit(1)] after
    one error record and nothing else; the record names [DOMAIN] whenever
    [DOMAIN] is absent or empty, also when [EMAIL] is missing too, and
    names [EMAIL] only when [DOMAIN] is there. *)
Theorem parse_failure_names_first_missing (s s' : state) (e : exn) :
  parse_environment s = Exc e s' →
  e = SystemExit 1
  ∧ ((¬ set_nonempty (environ s) "DOMAIN"
      ∧ s' = emit (EvLog ERROR "DOMAIN must be passed as an env variable") s)
     ∨ (set_nonempty (environ s) "DOMAIN"
        ∧ ¬ set_nonempty (environ s) "EMAIL"
        ∧ s' = emit (EvLog ERROR "EMAIL must be passed as an env variable")
                 s)).
Proof.
  rewrite parse_environment_spec.
  destruct (truthy_opt (environ s !! "DOMAIN")) eqn:Hd.
  - destruct (truthy_opt (environ s !! "EMAIL")) eqn:He; [discriminate|].
    intros [= <- <-]. split; [done|]. right.
    split; [by apply truthy_opt_set_nonempty|]. split; [|done].
    intros H%truthy_opt_set_nonempty. congruence.
  - intros [= <- <-]. split; [done|]. left. split; [|done].
    intros H%truthy_opt_set_nonempty. congruence.
Qed.

(** ** Paths for a domain that is an absolute path *)

(** X7. For a domain that begins with the separator, [os.path.join] drops
    what came before it: the certificate paths are taken below the domain
    itself, not below [LE_BASE_DIR], and the served configuration is
    written next to it, at the domain followed by [.conf], not in
    [/etc/nginx/conf.d]. *)
Theorem absolute_domain_leaves_the_base (D : string) :
  startswith_sep D = true →
  (∀ p, startswith_sep p = false →
        live_dir_path D p
        = if endswith_sep D then D +:+ p else D +:+ "/" +:+ p)
  ∧ served_config_path D = D +:+ ".conf"
  ∧ ∀ s s', create_nginx_config_file D s = Ret tt s' →
            fs s' !! (D +:+ ".conf")
            = Some (File (rendered_config D (custom_include s))).
Proof.
  intros HD.
  assert (Hne : D ≠ "") by (by intros ->).
  assert (Hpath : served_config_path D = D +:+ ".conf").
  { unfold served_config_path, os_path_join. simpl.
    unfold join_component. by rewrite startswith_sep_app, HD. }
  split_and!; [|done|].
  - intros p Hp. unfold live_dir_path, os_path_join. simpl.
    unfold join_component at 2. rewrite HD.
    unfold join_component. rewrite Hp.
    destruct D as [|c D']; [done|]. simpl. done.
  - intros s s'. rewrite create_nginx_config_file_spec, Hpath. cbv zeta.
    destruct (fs s !! (D +:+ ".conf")) as [[c|]|]; try done;
      intros [= <-]; destruct (bool_decide _); simpl;
      by rewrite lookup_insert_eq.
Qed.

(** ** Running the issuer object again *)

(** X8. [Certbot.run] appends to the argument vector kept in the object:
    a second [run] on the object the first one returned hands to
    [check_call] the base command followed by every flag group twice. *)
Theorem second_run_repeats_the_flags (self self1 self2 : Certbot.t)
  (s s1 s2 s3 : state) :
  Certbot_run self s = Ret self1 s1 →
  Certbot_run self1 s2 = Ret self2 s3 →
  let groups := concat (flag_group <$> map_to_list (Certbot.args self)) in
  Certbot.cmd self1 = Certbot.cmd self ++ groups
  ∧ Certbot.cmd self2 = Certbot.cmd self ++ groups ++ groups
  ∧ last_command (trace s3) = Some (EvCheckCall (Certbot.cmd self2)).
Proof.
  rewrite !Certbot_run_spec. cbv zeta.
  destruct (world s _ _) as [c1 o1|]; [|done].
  destruct (Z.eqb c1 0); [|done]. intros [= <- <-].
  destruct (world s2 _ _) as [c2 o2|]; [|done].
  destruct (Z.eqb c2 0); [|done]. intros [= <- <-].
  assert (Hb : ∀ c, Certbot.build_cmd (Certbot.set_cmd c self)
                    = c ++ concat (flag_group <$>
                                     map_to_list (Certbot.args self))).
  { intros c. by rewrite build_cmd_groups. }
  cbn [Certbot.cmd Certbot.set_cmd]. rewrite Hb.
  rewrite (build_cmd_groups self). split_and!; try done.
  by rewrite <- app_assoc.
Qed.

(** ** The registry of started processes *)

Lemma kill_each_spec (handles : list nat) (w : Process.world) :
  let live := List.filter (Process.polls_none w) handles in
  Process.kill_each handles w
  = (inr tt,
     Process.mk (Process.table w) (Process.next_pid w)
       (Process.launchable w) (Process.processes w)
       (rev (Process.kill_record <$> live) ++ Process.events w)
       (rev live ++ Process.signals w)).
Proof.
  revert w. induction handles as [|pid rest IH]; intros w; simpl.
  - by destruct w.
  - destruct (Process.polls_none w pid) eqn:Hp; [|apply IH].
    unfold Process.kill.
    change (str_format "sending SIGKILL to pid {}" [pretty pid])
      with (Some ("sending SIGKILL to pid " +:+ pretty pid +:+ "")).
    cbv zeta.
    change (Process.polls_none (Process.logging_info _ w) pid)
      with (Process.polls_none w pid).
    rewrite Hp, IH. simpl.
    change (Process.polls_none (Process.send_sigkill pid _))
      with (Process.polls_none w).
    f_equal. f_equal; by rewrite <- app_assoc.
Qed.

Lemma kill_all_closed (w : Process.world) :
  let live := List.filter (Process.polls_none w) (Process.processes w) in
  Process.kill_all w
  = (inr tt,
     Process.mk (Process.table w) (Process.next_pid w)
       (Process.launchable w) (Process.processes w)
       (rev (Process.kill_record <$> live)
        ++ EvLog INFO "performing shutdown clean up" :: Process.events w)
       (rev live ++ Process.signals w)).
Proof.
  unfold Process.kill_all. by rewrite kill_each_spec.
Qed.

(** X9. [Process.kill_all] never raises.  It logs its header, then sends
    SIGKILL to the registered handles whose [poll] answers [None], each
    once per registration and in the order of registration, with one
    record per signal; a handle whose process has exited gets nothing.
    The registry and the process table are left as they were. *)
Theorem kill_all_signals_the_living (w : Process.world) :
  let live := List.filter (Process.polls_none w) (Process.processes w) in
  ∃ w',
    Process.kill_all w = (inr tt, w')
    ∧ Process.signals w' = rev live ++ Process.signals w
    ∧ Process.events w'
      = rev (Process.kill_record <$> live)
        ++ EvLog INFO "performing shutdown clean up" :: Process.events w
    ∧ Process.processes w' = Process.processes w
    ∧ Process.table w' = Process.table w.
Proof.
  intros live. rewrite kill_all_closed.
  eexists. split; [reflexivity|]. by split_and!.
Qed.

Lemma start_list_spec (prog : string) (args : list string) (add : bool)
  (w : Process.world) :
  Process.start (Process.PyList (prog :: args)) add w
  = if Process.launchable w (prog :: args) then
      (inr (Process.next_pid w),
       Process.mk (<[Process.next_pid w := Alive]> (Process.table w))
         (S (Process.next_pid w)) (Process.launchable w)
         (Process.processes w ++ [Process.next_pid w])
         (EvLog INFO ("started " +:+ prog +:+ " ("
                      +:+ pretty (Process.next_pid w) +:+ ")")
          :: EvPopen (prog :: args) :: Process.events w)
         (Process.signals w))
    else (inl Process.OSError,
          Process.record (EvPopen (prog :: args)) w).
Proof.
  unfold Process.start, Process.Popen.
  destruct (Process.launchable w (prog :: args)); [|done].
  change (str_format "started {} ({})"
            [default "" (head (prog :: args)); pretty (Process.next_pid w)])
    with (Some ("started " +:+ prog +:+ " ("
                +:+ pretty (Process.next_pid w) +:+ ")")).
  done.
Qed.

(** X10. [Process.start] registers what it starts whatever [add] says: a
    command that can be launched gets the next pid, alive, and its handle
    goes to the end of the registry behind the handles already there; the
    answer for [add=False] is the answer for [add=True].  A command that
    cannot be launched, an empty list or an argument that is not a list
    registers nothing and starts nothing. *)
Theorem start_registers_whatever_add_says (cmd : Process.pyobj)
  (add : bool) (w : Process.world) :
  Process.start cmd add w = Process.start cmd (negb add) w
  ∧ match Process.start cmd add w with
    | (inr pid, w') =>
      pid = Process.next_pid w
      ∧ Process.processes w' = Process.processes w ++ [pid]
      ∧ Process.polls_none w' pid = true
      ∧ (∀ p, p ≠ pid → Process.table w' !! p = Process.table w !! p)
      ∧ Process.signals w' = Process.signals w
    | (inl e, w') =>
      Process.processes w' = Process.processes w
      ∧ Process.table w' = Process.table w
      ∧ Process.signals w' = Process.signals w
      ∧ match cmd with
        | Process.PyList [] => e = Process.IndexError ∧ w' = w
        | Process.PyList (_ :: _) => e = Process.OSError
        | _ => e = Process.ValueError ∧ w' = w
        end
    end.
Proof.
  split; [by destruct cmd|].
  destruct cmd as [[|prog args]|pid|text]; try done.
  rewrite start_list_spec.
  destruct (Process.launchable w (prog :: args)); [|done].
  split_and!; try done.
  - unfold Process.polls_none. simpl. by rewrite lookup_insert_eq.
  - intros p Hp. simpl. by rewrite lookup_insert_ne.
Qed.

Lemma start_each_spec (cmds : list (list string * bool))
  (w : Process.world) :
  let '(pids, w') := Process.start_each cmds w in
  Process.processes w' = Process.processes w ++ pids
  ∧ Process.signals w' = Process.signals w
  ∧ (Process.next_pid w ≤ Process.next_pid w')%nat
  ∧ (∀ p, (p < Process.next_pid w)%nat →
          Process.table w' !! p = Process.table w !! p)
  ∧ Forall (λ p, (Process.next_pid w ≤ p)%nat
                 ∧ Process.polls_none w' p = true) pids.
Proof.
  revert w. induction cmds as [|[cmd add] rest IH]; intros w;
    cbn [Process.start_each].
  - rewrite app_nil_r. by split_and!.
  - destruct cmd as [|prog args]; [simpl; rewrite app_nil_r; by split_and!|].
    rewrite start_list_spec.
    destruct (Process.launchable w (prog :: args)).
    + match goal with
      | |- context [Process.start_each rest ?x] =>
        specialize (IH x); destruct (Process.start_each rest x) as [pids w2]
      end.
      simpl in IH. destruct IH as (Hp & Hs & Hn & Ht & Hall).
      split_and!.
      * by rewrite Hp, <- app_assoc.
      * done.
      * lia.
      * intros p Hlt. rewrite Ht by lia. apply lookup_insert_ne. lia.
      * constructor.
        -- split; [done|]. unfold Process.polls_none.
           rewrite Ht by lia. by rewrite lookup_insert_eq.
        -- eapply Forall_impl; [exact Hall|]. intros p [? ?]. split; [lia|done].
    + simpl. rewrite app_nil_r. by split_and!.
Qed.

(** X11. Whatever was started through [Process.start] is reached by
    [Process.kill_all]: after any list of commands has been started, with
    any [add] flags, up to the first that fails, every process started is
    sent SIGKILL by a [kill_all] that follows. *)
Theorem kill_all_reaches_every_started (cmds : list (list string * bool))
  (w : Process.world) :
  ∃ w', Process.kill_all (Process.start_each cmds w).2 = (inr tt, w')
        ∧ ∀ pid, pid ∈ (Process.start_each cmds w).1 →
                 pid ∈ Process.signals w'.
Proof.
  pose proof (start_each_spec cmds w) as Hs.
  destruct (Process.start_each cmds w) as [pids w1]. simpl.
  destruct Hs as (Hp & _ & _ & _ & Hall).
  rewrite kill_all_closed. eexists. split; [reflexivity|].
  intros pid Hin. cbn [Process.signals]. apply elem_of_app. left.
  apply list_elem_of_In. rewrite <- in_rev. apply filter_In. split.
  - rewrite Hp. apply in_or_app. right. by apply list_elem_of_In.
  - rewrite Forall_forall in Hall. by apply Hall.
Qed.

(** ** The renewal rhythm *)

Lemma rhythm_invariant_step (a : actor) (s s' : state) :
  gate_invariant s → rhythm_invariant s → step a s = Some s' →
  rhythm_invariant s'.
Proof.
  intros Hf%gate_spawn_fresh Hinv H. revert Hinv.
  step_cases H; use_fresh Hf; clear Hf;
    unfold rhythm_invariant, count_events;
    simpl_state; use_status; simpl;
    try done;
    repeat match goal with
           | |- context [cycle_stage_of (renewer_t ?s)] =>
             destruct (cycle_stage_of (renewer_t s))
           end;
    simpl; intros; destruct_and?; try done; lia.
Qed.

(** X12. In every state of every schedule the renewer has slept one hour
    after each renewal attempt but possibly the last: the number of
    attempts is the number of one-hour sleeps, or one more. *)
Theorem renewals_spaced_by_sleeps (env : gmap string string)
  (w : nat → list string → cmd_result) (files : gmap string node)
  (sched : list actor) (s : state) :
  run sched (init env w files) = Some s →
  (count_events is_sleep (trace s)
   ≤ count_events is_renew_attempt (trace s))%nat
  ∧ (count_events is_renew_attempt (trace s)
     ≤ S (count_events is_sleep (trace s)))%nat.
Proof.
  intros Hrun.
  assert (Hinv : rhythm_invariant s).
  { exact (run_invariant_gated rhythm_invariant env w files
             (conj eq_refl eq_refl) rhythm_invariant_step sched s Hrun). }
  unfold rhythm_invariant in Hinv.
  destruct (cycle_stage_of (renewer_t s)); lia.
Qed.

#[local] Transparent create_nginx_config_file parse_environment certs_exist
  Certbot_run Nginx.write_proxy_config Nginx.remove_proxy_config
  Process_start CalledProcessError_str NGINX_CMD Certbot.init.

(** ** Instances of the further properties *)

Lemma issuance_waits_for_server_witness :
  match run issuance_schedule (init example_env world_ok ∅) with
  | Some s =>
    only_after is_popen is_check_call (trace s)
    ∧ only_after (is_acquire_by ObtainThread start_lock) is_check_call
        (trace s)
    ∧ only_after (is_release_by MainThread start_lock)
        (is_acquire_by ObtainThread start_lock) (trace s)
    ∧ only_after is_popen (is_release_by MainThread start_lock) (trace s)
  | None => False
  end.
Proof.
  destruct (run issuance_schedule (init example_env world_ok ∅))
    as [s|] eqn:Hrun.
  - exact (issuance_waits_for_server example_env world_ok ∅
             issuance_schedule s Hrun).
  - by vm_compute in Hrun.
Defined.

Lemma one_launch_one_issuance_one_reload_witness :
  match run issuance_schedule (init example_env world_ok ∅) with
  | Some s =>
    (count_events is_popen (trace s) ≤ 1)%nat
    ∧ (count_events is_check_call (trace s) ≤ 1)%nat
    ∧ (count_events is_sighup (trace s) ≤ 1)%nat
  | None => False
  end.
Proof.
  destruct (run issuance_schedule (init example_env world_ok ∅))
    as [s|] eqn:Hrun.
  - exact (one_launch_one_issuance_one_reload example_env world_ok ∅
             issuance_schedule s Hrun).
  - by vm_compute in Hrun.
Defined.

Lemma reload_finds_the_server_witness :
  match run issuance_schedule (init example_env world_ok ∅) with
  | Some s =>
    obtain_t s ≠ Ended (Some AttributeError)
    ∧ only_after is_popen is_sighup (trace s)
    ∧ only_after is_check_call is_sighup (trace s)
  | None => False
  end.
Proof.
  destruct (run issuance_schedule (init example_env world_ok ∅))
    as [s|] eqn:Hrun.
  - exact (reload_finds_the_server example_env world_ok ∅
             issuance_schedule s Hrun).
  - by vm_compute in Hrun.
Defined.

Lemma certificate_present_skips_issuance_witness :
  match run present_schedule (init example_env world_ok with_full_chain) with
  | Some s =>
    obtain_t s = NotStarted
    ∧ existsb is_check_call (trace s) = false
    ∧ ∀ p, p ≠ served_config_path "example.com" →
           fs s !! p = with_full_chain !! p
  | None => False
  end.
Proof.
  destruct (run present_schedule (init example_env world_ok with_full_chain))
    as [s|] eqn:Hrun.
  - apply (certificate_present_skips_issuance example_env world_ok
             with_full_chain "example.com" present_schedule s);
      [reflexivity|by eexists; vm_compute|done].
  - by vm_compute in Hrun.
Defined.

Lemma parsed_config_has_domain_and_email_witness :
  match parse_environment (init example_env world_ok ∅) with
  | Ret config s' =>
    s' = init example_env world_ok ∅
    ∧ config = config_of_env example_env
    ∧ Config.server config = None
    ∧ ∃ d e, Config.domain config = Some d ∧ d ≠ ""
             ∧ Config.email config = Some e ∧ e ≠ ""
  | _ => False
  end.
Proof.
  destruct (parse_environment (init example_env world_ok ∅))
    as [config s'|e s'|] eqn:H.
  - exact (parsed_config_has_domain_and_email
             (init example_env world_ok ∅) s' config H).
  - by vm_compute in H.
  - by vm_compute in H.
Defined.

Lemma parse_failure_names_first_missing_witness :
  match parse_environment (init ∅ world_ok ∅) with
  | Exc e s' =>
    e = SystemExit 1
    ∧ trace s' = [EvLog ERROR "DOMAIN must be passed as an env variable"]
  | _ => False
  end.
Proof.
  destruct (parse_environment (init ∅ world_ok ∅))
    as [config s'|e s'|] eqn:H.
  - by vm_compute in H.
  - destruct (parse_failure_names_first_missing (init ∅ world_ok ∅) s' e H)
      as [He [[_ ->]|[Hd _]]].
    + by split.
    + destruct Hd as (v & Hv & _). by vm_compute in Hv.
  - by vm_compute in H.
Defined.

Lemma absolute_domain_leaves_the_base_witness :
  live_dir_path "/srv/site" FULL_CHAIN = "/srv/site/fullchain.pem"
  ∧ served_config_path "/srv/site" = "/srv/site.conf".
Proof.
  destruct (absolute_domain_leaves_the_base "/srv/site" eq_refl)
    as (Hlive & Hserved & _).
  split; [exact (Hlive FULL_CHAIN eq_refl)|exact Hserved].
Defined.

Lemma second_run_repeats_the_flags_witness :
  match Certbot_run (Certbot.init (config_of_env example_env))
          (init example_env world_ok ∅) with
  | Ret self1 s1 =>
    match Certbot_run self1 s1 with
    | Ret self2 s3 =>
      List.length (Certbot.cmd self2) = 22%nat
      ∧ last_command (trace s3) = Some (EvCheckCall (Certbot.cmd self2))
    | _ => False
    end
  | _ => False
  end.
Proof.
  destruct (Certbot_run (Certbot.init (config_of_env example_env))
              (init example_env world_ok ∅)) as [self1 s1|e s1|] eqn:H1.
  - destruct (Certbot_run self1 s1) as [self2 s3|e s3|] eqn:H2.
    + destruct (second_run_repeats_the_flags _ _ _ _ _ _ _ H1 H2)
        as (_ & Hcmd & Hlast).
      split; [|exact Hlast]. rewrite Hcmd. by vm_compute.
    + vm_compute in H1. injection H1 as <- <-. by vm_compute in H2.
    + vm_compute in H1. injection H1 as <- <-. by vm_compute in H2.
  - by vm_compute in H1.
  - by vm_compute in H1.
Defined.

Lemma renewals_spaced_by_sleeps_witness :
  match run issuance_schedule (init example_env world_ok ∅) with
  | Some s =>
    (count_events is_sleep (trace s)
     ≤ count_events is_renew_attempt (trace s))%nat
    ∧ (count_events is_renew_attempt (trace s)
       ≤ S (count_events is_sleep (trace s)))%nat
  | None => False
  end.
Proof.
  destruct (run issuance_schedule (init example_env world_ok ∅))
    as [s|] eqn:Hrun.
  - exact (renewals_spaced_by_sleeps example_env world_ok ∅
             issuance_schedule s Hrun).
  - by vm_compute in Hrun.
Defined.
